(** * FileLoader: a caching file downloader built on a small promise library

    Shallow embedding of [file_loader.js].  The JavaScript heap is explicit:
    promises and [File] objects live in two stores and are named by their
    index; the closures the program creates are the constructors of [Fn];
    [setTimeout(callback, 0)] appends to the queue [timers], and one turn of
    the host event loop ([tick]) runs the task at its front.  The Titanium
    host (clock, network, file system, property store, MD5) is part of the
    [World] or of the [Host] record. *)

From stdpp Require Import gmap strings list pretty.

(** ** JavaScript values *)

Inductive Value :=
  | VUndef
  | VNull
  | VBool (b : bool)
  | VNum (n : Z)
  | VStr (s : string)
  | VBlob (d : string)
  | VError (msg : string)
  | VObj (props : Props)
  | VFile (f : nat)
  | VPromise (p : nat)
with Props :=
  | PNil
  | PCons (k : string) (v : Value) (rest : Props).

(** Completion of a function call: a returned value or a thrown one. *)
Inductive Outcome :=
  | Return (v : Value)
  | Throw (e : Value).

(** The closures of the program.  The first seven are the function
    expressions of [file_loader.js] with the variables they capture; [FnUser]
    is a function supplied by the consumer ([onload], a [then] handler, a
    progress subscriber): it is called with the promise's values, returns or
    throws, and its call is recorded in the world's [log]. *)
Inductive Fn :=
  | FnSpawn (url : string)
  | FnGet (prop : string)
  | FnWrite (url : string) (file : nat)
  | FnCleanup (file : nat)
  | FnAdoptFulfil (newPromise : nat)
  | FnAdoptReject (newPromise : nat)
  | FnAdoptNotify (newPromise : nat)
  | FnUser (name : string) (body : list Value → Outcome).

(** [callCallbacks] of [set.then]: the closure over [onFulfilled],
    [onRejected] and [newPromise]; the promise it reads [state] and [values]
    from is the one whose [then] built it. *)
Record Callback := {
  onFulfilled : option Fn;
  onRejected : option Fn;
  newPromise : nat
}.

(** The variables of one [pinkySwear()] call.  [delegate] is [Some set] for
    a promise made by [set.then], whose [progress] and [notify] properties
    [then] replaces by functions forwarding to [set]. *)
Record Promise := {
  state : option bool;
  values : list Value;
  deferred : list Callback;
  progress_fns : option (list Fn);
  delegate : option nat
}.

(** A [File] object; [md5] is [None] for [null], [pending] and [downloaded]
    are [false] while the property is unset. *)
Record File := {
  id : string;
  is_cached : bool;
  last_used_at : Z;
  md5 : option string;
  pending : bool;
  downloaded : bool
}.

(** One record of the [metadata] object. *)
Record MetaData := {
  md_last_used_at : Z;
  md_md5 : option string
}.

(** A function passed to [setTimeout(_, 0)]. *)
Inductive Task :=
  | TRunDeferred (p : nat)
  | TCallCallbacks (p : nat) (cb : Callback)
  | TNotify (p : nat) (value : Value).

(** An HTTP client made by [spawnHTTPClient]: its URL and the promise whose
    [resolve], [reject] and [notify] are its [onload], [onerror] and
    [ondatastream]; [hc_done] once [onload] or [onerror] has fired. *)
Record HTTPClient := {
  hc_url : string;
  hc_promise : nat;
  hc_done : bool
}.

(** A call of a consumer function, stamped with the turn it happened in. *)
Record Call := {
  call_turn : nat;
  call_fn : string;
  call_args : list Value
}.

(** The module state and the host.  [pending_tasks] holds the entries keyed
    by file id; the [dispatch_queue] property of the same JavaScript object
    is a field of its own (a file id is a 32-digit hexadecimal MD5 digest and
    never that name). *)
Record World := {
  clock : Z;
  online : bool;
  disk_writable : bool;
  disk : gmap string string;
  properties : gmap string MetaData;
  metadata : gmap string MetaData;
  files : list File;
  promises : list Promise;
  dispatch_queue : list nat;
  pending_tasks : gmap string nat;
  timers : list Task;
  http : list HTTPClient;
  turn : nat;
  log : list Call
}.

(** What the host supplies besides the world: [Ti.Utils.md5HexDigest], the
    configuration values [loadConfig] finds ([None] when unset) and the
    resolved path of the cache directory. *)
Record Host := {
  md5HexDigest : string → string;
  cache_expiration : option Z;
  cache_requests : option Z;
  cache_path : string
}.

(** *** Field updates *)

Definition with_disk (d : gmap string string) (w : World) : World :=
  {| clock := clock w; online := online w; disk_writable := disk_writable w;
     disk := d; properties := properties w; metadata := metadata w;
     files := files w; promises := promises w;
     dispatch_queue := dispatch_queue w; pending_tasks := pending_tasks w;
     timers := timers w; http := http w; turn := turn w; log := log w |}.

Definition with_properties (m : gmap string MetaData) (w : World) : World :=
  {| clock := clock w; online := online w; disk_writable := disk_writable w;
     disk := disk w; properties := m; metadata := metadata w;
     files := files w; promises := promises w;
     dispatch_queue := dispatch_queue w; pending_tasks := pending_tasks w;
     timers := timers w; http := http w; turn := turn w; log := log w |}.

Definition with_metadata (m : gmap string MetaData) (w : World) : World :=
  {| clock := clock w; online := online w; disk_writable := disk_writable w;
     disk := disk w; properties := properties w; metadata := m;
     files := files w; promises := promises w;
     dispatch_queue := dispatch_queue w; pending_tasks := pending_tasks w;
     timers := timers w; http := http w; turn := turn w; log := log w |}.

Definition with_files (fs : list File) (w : World) : World :=
  {| clock := clock w; online := online w; disk_writable := disk_writable w;
     disk := disk w; properties := properties w; metadata := metadata w;
     files := fs; promises := promises w;
     dispatch_queue := dispatch_queue w; pending_tasks := pending_tasks w;
     timers := timers w; http := http w; turn := turn w; log := log w |}.

Definition with_promises (ps : list Promise) (w : World) : World :=
  {| clock := clock w; online := online w; disk_writable := disk_writable w;
     disk := disk w; properties := properties w; metadata := metadata w;
     files := files w; promises := ps;
     dispatch_queue := dispatch_queue w; pending_tasks := pending_tasks w;
     timers := timers w; http := http w; turn := turn w; log := log w |}.

Definition with_dispatch_queue (q : list nat) (w : World) : World :=
  {| clock := clock w; online := online w; disk_writable := disk_writable w;
     disk := disk w; properties := properties w; metadata := metadata w;
     files := files w; promises := promises w;
     dispatch_queue := q; pending_tasks := pending_tasks w;
     timers := timers w; http := http w; turn := turn w; log := log w |}.

Definition with_pending_tasks (t : gmap string nat) (w : World) : World :=
  {| clock := clock w; online := online w; disk_writable := disk_writable w;
     disk := disk w; properties := properties w; metadata := metadata w;
     files := files w; promises := promises w;
     dispatch_queue := dispatch_queue w; pending_tasks := t;
     timers := timers w; http := http w; turn := turn w; log := log w |}.

Definition with_timers (ts : list Task) (w : World) : World :=
  {| clock := clock w; online := online w; disk_writable := disk_writable w;
     disk := disk w; properties := properties w; metadata := metadata w;
     files := files w; promises := promises w;
     dispatch_queue := dispatch_queue w; pending_tasks := pending_tasks w;
     timers := ts; http := http w; turn := turn w; log := log w |}.

Definition with_http (cs : list HTTPClient) (w : World) : World :=
  {| clock := clock w; online := online w; disk_writable := disk_writable w;
     disk := disk w; properties := properties w; metadata := metadata w;
     files := files w; promises := promises w;
     dispatch_queue := dispatch_queue w; pending_tasks := pending_tasks w;
     timers := timers w; http := cs; turn := turn w; log := log w |}.

Definition with_turn (n : nat) (w : World) : World :=
  {| clock := clock w; online := online w; disk_writable := disk_writable w;
     disk := disk w; properties := properties w; metadata := metadata w;
     files := files w; promises := promises w;
     dispatch_queue := dispatch_queue w; pending_tasks := pending_tasks w;
     timers := timers w; http := http w; turn := n; log := log w |}.

Definition with_log (l : list Call) (w : World) : World :=
  {| clock := clock w; online := online w; disk_writable := disk_writable w;
     disk := disk w; properties := properties w; metadata := metadata w;
     files := files w; promises := promises w;
     dispatch_queue := dispatch_queue w; pending_tasks := pending_tasks w;
     timers := timers w; http := http w; turn := turn w; log := l |}.

Definition with_clock (t : Z) (w : World) : World :=
  {| clock := t; online := online w; disk_writable := disk_writable w;
     disk := disk w; properties := properties w; metadata := metadata w;
     files := files w; promises := promises w;
     dispatch_queue := dispatch_queue w; pending_tasks := pending_tasks w;
     timers := timers w; http := http w; turn := turn w; log := log w |}.

Definition with_online (b : bool) (w : World) : World :=
  {| clock := clock w; online := b; disk_writable := disk_writable w;
     disk := disk w; properties := properties w; metadata := metadata w;
     files := files w; promises := promises w;
     dispatch_queue := dispatch_queue w; pending_tasks := pending_tasks w;
     timers := timers w; http := http w; turn := turn w; log := log w |}.

Definition with_disk_writable (b : bool) (w : World) : World :=
  {| clock := clock w; online := online w; disk_writable := b;
     disk := disk w; properties := properties w; metadata := metadata w;
     files := files w; promises := promises w;
     dispatch_queue := dispatch_queue w; pending_tasks := pending_tasks w;
     timers := timers w; http := http w; turn := turn w; log := log w |}.

(** Assignments to the properties of a [File]. *)
Definition with_is_cached (b : bool) (this : File) : File :=
  {| id := id this; is_cached := b; last_used_at := last_used_at this;
     md5 := md5 this; pending := pending this; downloaded := downloaded this |}.

Definition with_last_used_at (t : Z) (this : File) : File :=
  {| id := id this; is_cached := is_cached this; last_used_at := t;
     md5 := md5 this; pending := pending this; downloaded := downloaded this |}.

Definition with_md5 (h : option string) (this : File) : File :=
  {| id := id this; is_cached := is_cached this;
     last_used_at := last_used_at this; md5 := h; pending := pending this;
     downloaded := downloaded this |}.

Definition with_pending (b : bool) (this : File) : File :=
  {| id := id this; is_cached := is_cached this;
     last_used_at := last_used_at this; md5 := md5 this; pending := b;
     downloaded := downloaded this |}.

Definition with_downloaded (b : bool) (this : File) : File :=
  {| id := id this; is_cached := is_cached this;
     last_used_at := last_used_at this; md5 := md5 this;
     pending := pending this; downloaded := b |}.

(** ** PinkySwear *)

(** *** Reading and writing the variables of a promise *)

Definition state_of (w : World) (p : nat) : option bool :=
  match promises w !! p with Some pr => state pr | None => None end.

Definition values_of (w : World) (p : nat) : list Value :=
  match promises w !! p with Some pr => values pr | None => [] end.

Definition deferred_of (w : World) (p : nat) : list Callback :=
  match promises w !! p with Some pr => deferred pr | None => [] end.

Definition progress_fns_of (w : World) (p : nat) : option (list Fn) :=
  match promises w !! p with Some pr => progress_fns pr | None => None end.

Definition delegate_of (w : World) (p : nat) : option nat :=
  match promises w !! p with Some pr => delegate pr | None => None end.

Definition update_promise (p : nat) (f : Promise → Promise) (w : World) : World :=
  with_promises (alter f p (promises w)) w.

(** [state = newState; values = newValues]. *)
Definition assign (newState : option bool) (newValues : list Value)
    (pr : Promise) : Promise :=
  {| state := newState; values := newValues; deferred := deferred pr;
     progress_fns := progress_fns pr; delegate := delegate pr |}.

(** [deferred.push(callCallbacks)]. *)
Definition push_deferred (cb : Callback) (pr : Promise) : Promise :=
  {| state := state pr; values := values pr; deferred := deferred pr ++ [cb];
     progress_fns := progress_fns pr; delegate := delegate pr |}.

(** [if (progress_fns == null) { progress_fns = []; }
    progress_fns.push(onProgress)]. *)
Definition push_progress (onProgress : Fn) (pr : Promise) : Promise :=
  {| state := state pr; values := values pr; deferred := deferred pr;
     progress_fns := Some (default [] (progress_fns pr) ++ [onProgress]);
     delegate := delegate pr |}.

(** [setTimeout(callback, 0)]. *)
Definition defer (callback : Task) (w : World) : World :=
  with_timers (timers w ++ [callback]) w.

(** [pinkySwear()]: fresh variables; the new promise is the last of the
    store.  [dlg] is the override [then] installs right after the call. *)
Definition pending_promise (dlg : option nat) : Promise :=
  {| state := None; values := []; deferred := []; progress_fns := None;
     delegate := dlg |}.

Definition pinkySwear (dlg : option nat) (w : World) : World * nat :=
  (with_promises (promises w ++ [pending_promise dlg]) w,
   length (promises w)).

(** [set(newState, newValues)]; [newState] is [None] for [undefined]. *)
Definition set (w : World) (p : nat) (newState : option bool)
    (newValues : list Value) : World :=
  match state_of w p with
  | None =>
      defer (TRunDeferred p) (update_promise p (assign newState newValues) w)
  | Some _ => w
  end.

Definition resolve (w : World) (p : nat) (value : Value) : World :=
  set w p (Some true) [value].

Definition reject (w : World) (p : nat) (value : Value) : World :=
  set w p (Some false) [value].

(** [p.progress(onProgress)].  On a promise made by [then] the property is
    the forwarding function, so the call climbs to the promise that still
    has its own [progress]; [fuel] bounds the climb. *)
Fixpoint progress_at (fuel : nat) (w : World) (p : nat) (onProgress : Fn) : World :=
  match fuel with
  | 0 => w
  | S k =>
      match delegate_of w p with
      | Some q => progress_at k w q onProgress
      | None => update_promise p (push_progress onProgress) w
      end
  end.

Definition progress (w : World) (p : nat) (onProgress : Fn) : World :=
  progress_at (S (length (promises w))) w p onProgress.

(** [p.notify(value)], forwarded the same way; the promise with its own
    [notify] defers the calls of its subscribers. *)
Fixpoint notify_at (fuel : nat) (w : World) (p : nat) (value : Value) : World :=
  match fuel with
  | 0 => w
  | S k =>
      match delegate_of w p with
      | Some q => notify_at k w q value
      | None => defer (TNotify p value) w
      end
  end.

Definition notify (w : World) (p : nat) (value : Value) : World :=
  notify_at (S (length (promises w))) w p value.

(** [set.then(onFulfilled, onRejected, onProgress)]. *)
Definition then_ (w : World) (p : nat)
    (onF onR onP : option Fn) : World * nat :=
  let '(w1, np) := pinkySwear (Some p) w in
  let cb := {| onFulfilled := onF; onRejected := onR; newPromise := np |} in
  let w2 :=
    match state_of w1 p with
    | Some _ => defer (TCallCallbacks p cb) w1
    | None => update_promise p (push_deferred cb) w1
    end in
  let w3 :=
    match onP with
    | Some f => progress w2 p f
    | None => w2
    end in
  (w3, np).

Definition always (w : World) (p : nat) (func : option Fn) : World * nat :=
  then_ w p func func None.

Definition fin (w : World) (p : nat) (func : option Fn) : World * nat :=
  (fst (then_ w p func func None), p).

Definition fail (w : World) (p : nat) (func : option Fn) : World * nat :=
  then_ w p None func None.

Definition get (w : World) (p : nat) (prop : string) : World * nat :=
  then_ w p (Some (FnGet prop)) None None.

(** ** Constants *)

(** [a || b] on an optional number: [b] when [a] is unset or [0]. *)
Definition js_or (a : option Z) (b : Z) : Z :=
  match a with
  | Some z => if (z =? 0)%Z then b else z
  | None => b
  end.

Section FileLoader.

Variable host : Host.

Definition EXPIRATION_TIME : Z := js_or (cache_expiration host) 3600000.
Definition MAX_ASYNC_TASKS : Z := js_or (cache_requests host) 10.

(** ** Metadata *)

Definition saveMetaData (w : World) : World :=
  with_properties (metadata w) w.

(** ** Class File *)

Definition update_file (f : nat) (g : File → File) (w : World) : World :=
  with_files (alter g f (files w)) w.

Definition on_disk (w : World) (name : string) : bool :=
  bool_decide (is_Some (disk w !! name)).

(** The constructor [File(id)]: the properties of the new object. *)
Definition File_constructor (i : string) (w : World) : File :=
  match metadata w !! i with
  | Some cache_data =>
      {| id := i; is_cached := on_disk w i;
         last_used_at := md_last_used_at cache_data;
         md5 := md_md5 cache_data;
         pending := false; downloaded := false |}
  | None =>
      {| id := i; is_cached := false; last_used_at := 0; md5 := None;
         pending := false; downloaded := false |}
  end.

(** [new File(id)]; the object is the last of the store. *)
Definition File_new (i : string) (w : World) : World * nat :=
  (with_files (files w ++ [File_constructor i w]) w, length (files w)).

Definition updateLastUsedAt (w : World) (f : nat) : World :=
  update_file f (with_last_used_at (clock w)) w.

Definition save (w : World) (f : nat) : World :=
  match files w !! f with
  | Some this =>
      let w1 :=
        with_metadata
          (<[id this := {| md_last_used_at := last_used_at this;
                           md_md5 := md5 this |}]> (metadata w)) w in
      update_file f (with_is_cached true) (saveMetaData w1)
  | None => w
  end.

Definition File_exists (w : World) (f : nat) : bool :=
  match files w !! f with
  | Some this => on_disk w (id this)
  | None => false
  end.

(** The text the host stores and digests for a payload. *)
Definition payload (data : Value) : string :=
  match data with
  | VBlob d => d
  | VStr s => s
  | _ => EmptyString
  end.

Definition getMD5 (data : Value) : string :=
  md5HexDigest host (payload data).

(** [File::write]: the host writes only while [disk_writable]; the result
    is the existence probe, not what the host's write returned. *)
Definition write (w : World) (f : nat) (data : Value) : World * bool :=
  match files w !! f with
  | Some this =>
      let w1 :=
        if disk_writable w
        then with_disk (<[id this := payload data]> (disk w)) w
        else w in
      let w2 :=
        update_file f (with_md5 (Some (getMD5 data))) w1 in
      (w2, File_exists w2 f)
  | None => (w, false)
  end.

(** [File::expired(invalidate)]. *)
Definition expired (w : World) (f : nat) (invalidate : bool) : World * bool :=
  let w1 :=
    if invalidate
    then
      save
        (update_file f (with_last_used_at 0) w) f
    else w in
  (w1,
   match files w1 !! f with
   | Some this => bool_decide (EXPIRATION_TIME < clock w1 - last_used_at this)%Z
   | None => false
   end).

Definition expunge (w : World) (f : nat) : World :=
  match files w !! f with
  | Some this =>
      let w1 := with_disk (delete (id this) (disk w)) w in
      let w2 := saveMetaData (with_metadata (delete (id this) (metadata w1)) w1) in
      update_file f (with_is_cached false) w2
  | None => w
  end.

Definition getPath (w : World) (f : nat) : string :=
  match files w !! f with
  | Some this => cache_path host +:+ "/" +:+ id this
  | None => EmptyString
  end.

Definition File_toString (w : World) (f : nat) : string :=
  match files w !! f with
  | Some this =>
      EmptyString +:+ id this +:+ ": " +:+
      (if is_cached this then "cached" else "new") +:+ " file" +:+
      (if pending this then " (pending)" else EmptyString) +:+
      (if downloaded this then " (downloaded)" else EmptyString) +:+
      (if snd (expired w f false) then " (expired)" else EmptyString) +:+
      (if (last_used_at this =? 0)%Z then EmptyString
       else ", Last used: " +:+ pretty (last_used_at this)) +:+
      (match md5 this with
       | Some h => if String.eqb h EmptyString then EmptyString else ", MD5: " +:+ h
       | None => EmptyString
       end) +:+
      " " +:+ getPath w f
  | None => EmptyString
  end.

Definition idFromUrl (url : string) : string := md5HexDigest host url.

Definition fromURL (url : string) (w : World) : World * nat :=
  File_new (idFromUrl url) w.

(** ** FileLoader *)

(** [requestDispatch]. *)
Definition requestDispatch (w : World) : World * nat :=
  let '(w1, waitForDispatch) := pinkySwear None w in
  (with_dispatch_queue (dispatch_queue w1 ++ [waitForDispatch]) w1,
   waitForDispatch).

(** [dispatchNextTask].  Every ticket is a promise and has [resolve], so
    the [poorMansNextTick] branch is never taken. *)
Definition dispatchNextTask (w : World) : World :=
  if bool_decide (Z.of_nat (length (dispatch_queue w)) < MAX_ASYNC_TASKS)%Z
  then
    match dispatch_queue w with
    | [] => w
    | task :: rest => resolve (with_dispatch_queue rest w) task VUndef
    end
  else w.

(** [spawnHTTPClient]: the request is on its way once the call returns. *)
Definition spawnHTTPClient (w : World) (url : string) (pinkyPromise : nat) : World :=
  with_http
    (http w ++
     [{| hc_url := url; hc_promise := pinkyPromise; hc_done := false |}]) w.

(** ** Calling the closures *)

Fixpoint props_get (props : Props) (prop : string) : Value :=
  match props with
  | PNil => VUndef
  | PCons k v rest => if String.eqb k prop then v else props_get rest prop
  end.

(** [value[prop]]: a [TypeError] on [undefined] and [null]; the data
    properties of objects and of [File]s; [undefined] otherwise (methods are
    not values of this model). *)
Definition get_prop (w : World) (value : Value) (prop : string) : Outcome :=
  match value with
  | VUndef | VNull => Throw (VError "TypeError")
  | VObj props => Return (props_get props prop)
  | VFile f =>
      match files w !! f with
      | Some this =>
          Return
            (if String.eqb prop "id" then VStr (id this)
             else if String.eqb prop "is_cached" then VBool (is_cached this)
             else if String.eqb prop "last_used_at" then VNum (last_used_at this)
             else if String.eqb prop "md5" then
               match md5 this with Some h => VStr h | None => VNull end
             else if String.eqb prop "pending" then VBool (pending this)
             else if String.eqb prop "downloaded" then VBool (downloaded this)
             else VUndef)
      | None => Return VUndef
      end
  | _ => Return VUndef
  end.

(** The first argument of a call. *)
Definition arg0 (args : list Value) : Value :=
  match args with
  | v :: _ => v
  | [] => VUndef
  end.

(** [f.apply(null, args)]. *)
Definition apply_fn (w : World) (f : Fn) (args : list Value) : World * Outcome :=
  match f with
  | FnSpawn url =>
      let '(w1, waitForHttp) := pinkySwear None w in
      (spawnHTTPClient w1 url waitForHttp, Return (VPromise waitForHttp))
  | FnGet prop => (w, get_prop w (arg0 args) prop)
  | FnWrite url file =>
      let '(w1, ok) := write w file (arg0 args) in
      if ok
      then
        let w2 :=
          update_file file (with_downloaded true) w1 in
        (save (updateLastUsedAt w2 file) file, Return (VFile file))
      else
        (w1, Throw (VError ("Failed to save data from " +:+ url +:+ ": " +:+
                            File_toString w1 file)))
  | FnCleanup file =>
      let w1 :=
        match files w !! file with
        | Some this => with_pending_tasks (delete (id this) (pending_tasks w)) w
        | None => w
        end in
      let w2 :=
        update_file file (with_pending false) w1 in
      (dispatchNextTask w2, Return VUndef)
  | FnAdoptFulfil np => (set w np (Some true) [arg0 args], Return VUndef)
  | FnAdoptReject np => (set w np (Some false) [arg0 args], Return VUndef)
  | FnAdoptNotify np => (notify w np (arg0 args), Return VUndef)
  | FnUser name body =>
      (with_log
         (log w ++ [{| call_turn := turn w; call_fn := name; call_args := args |}]) w,
       body args)
  end.

(** [callCallbacks] of the [then] called on promise [p]. *)
Definition callCallbacks (w : World) (p : nat) (cb : Callback) : World :=
  let f :=
    match state_of w p with
    | Some true => onFulfilled cb
    | _ => onRejected cb
    end in
  match f with
  | Some fn =>
      match apply_fn w fn (values_of w p) with
      | (w1, Return (VPromise r)) =>
          fst (then_ w1 r
                 (Some (FnAdoptFulfil (newPromise cb)))
                 (Some (FnAdoptReject (newPromise cb)))
                 (Some (FnAdoptNotify (newPromise cb))))
      | (w1, Return r) => set w1 (newPromise cb) (Some true) [r]
      | (w1, Throw e) => set w1 (newPromise cb) (Some false) [e]
      end
  | None => set w (newPromise cb) (state_of w p) (values_of w p)
  end.

(** The loop [for (i = 0; i < deferred.length; i++) deferred[i]()] from
    index [i] on; the list is read again at every round. *)
Fixpoint run_deferred (fuel : nat) (w : World) (p i : nat) : World :=
  match fuel with
  | 0 => w
  | S k =>
      match deferred_of w p !! i with
      | Some cb => run_deferred k (callCallbacks w p cb) p (S i)
      | None => w
      end
  end.

(** The loop over [progress_fns]; a subscriber that throws ends it, nothing
    catches the exception. *)
Fixpoint run_progress (fuel : nat) (w : World) (p i : nat) (value : Value) : World :=
  match fuel with
  | 0 => w
  | S k =>
      match progress_fns_of w p with
      | Some fns =>
          match fns !! i with
          | Some fn =>
              match apply_fn w fn [value] with
              | (w1, Return _) => run_progress k w1 p (S i) value
              | (w1, Throw _) => w1
              end
          | None => w
          end
      | None => w
      end
  end.

(** ** The event loop *)

(** A callback pushed on [deferred] while the loop runs is itself one of
    the adopting [then]s of [callCallbacks] and pushes nothing, hence the
    bound. *)
Definition run_task (w : World) (t : Task) : World :=
  match t with
  | TRunDeferred p => run_deferred (S (2 * length (deferred_of w p))) w p 0
  | TCallCallbacks p cb => callCallbacks w p cb
  | TNotify p value =>
      run_progress
        (S (length (default [] (progress_fns_of w p)))) w p 0 value
  end.

(** One turn: the oldest timer fires. *)
Definition tick (w : World) : World :=
  match timers w with
  | [] => w
  | t :: rest => run_task (with_turn (S (turn w)) (with_timers rest w)) t
  end.

Fixpoint ticks (n : nat) (w : World) : World :=
  match n with
  | 0 => w
  | S k => ticks k (tick w)
  end.

(** The host calls [onload], [onerror] or [ondatastream] of client [c], each
    in a turn of its own; a client that has loaded or failed is silent. *)
Definition mark_done (c : nat) (w : World) : World :=
  with_http
    (alter (λ hc, {| hc_url := hc_url hc; hc_promise := hc_promise hc;
                     hc_done := true |}) c (http w)) w.

Definition http_onload (w : World) (c : nat) (e : Value) : World :=
  match http w !! c with
  | Some hc =>
      if hc_done hc then w
      else resolve (with_turn (S (turn w)) (mark_done c w)) (hc_promise hc) e
  | None => w
  end.

Definition http_onerror (w : World) (c : nat) (e : Value) : World :=
  match http w !! c with
  | Some hc =>
      if hc_done hc then w
      else reject (with_turn (S (turn w)) (mark_done c w)) (hc_promise hc) e
  | None => w
  end.

Definition http_ondatastream (w : World) (c : nat) (e : Value) : World :=
  match http w !! c with
  | Some hc =>
      if hc_done hc then w
      else notify (with_turn (S (turn w)) w) (hc_promise hc) e
  | None => w
  end.

(** The event [onload] receives: [e.source.responseData] is the payload. *)
Definition load_event (data : string) : Value :=
  VObj (PCons "source" (VObj (PCons "responseData" (VBlob data) PNil)) PNil).

(** ** FileLoader.download *)

Record Args := {
  url : string;
  onload : option Fn;
  onerror : option Fn;
  ondatastream : option Fn
}.

Definition attachCallbacks (args : Args) (w : World) (promise : nat) : World * nat :=
  if bool_decide (is_Some (onload args) ∨ is_Some (onerror args)
                  ∨ is_Some (ondatastream args))
  then then_ w promise (onload args) (onerror args) (ondatastream args)
  else (w, promise).

Definition download (w : World) (args : Args) : World * nat :=
  let '(w0, file) := fromURL (url args) w in
  let file_id := idFromUrl (url args) in
  match pending_tasks w0 !! file_id with
  | Some inflight => attachCallbacks args w0 inflight
  | None =>
      if match files w0 !! file with
         | Some this => is_cached this && negb (snd (expired w0 file false))
         | None => false
         end
      then
        let w1 := save (updateLastUsedAt w0 file) file in
        let '(w2, waitingForPath) := pinkySwear None w1 in
        attachCallbacks args (set w2 waitingForPath (Some true) [VFile file])
          waitingForPath
      else if negb (online w0)
      then
        let '(w1, offlinePromise) := pinkySwear None w0 in
        attachCallbacks args
          (set w1 offlinePromise (Some false) [VStr "Network offline"])
          offlinePromise
      else
        let '(w1, waitForDispatch) := requestDispatch w0 in
        let '(w2, p1) := then_ w1 waitForDispatch (Some (FnSpawn (url args))) None None in
        let '(w3, p2) := get w2 p1 "source" in
        let '(w4, p3) := get w3 p2 "responseData" in
        let '(w5, p4) := then_ w4 p3 (Some (FnWrite (url args) file)) None None in
        let '(w6, waitingForDownload) := fin w5 p4 (Some (FnCleanup file)) in
        let w7 :=
          update_file file (with_pending true) w6 in
        let w8 := with_pending_tasks (<[file_id := waitingForDownload]> (pending_tasks w7)) w7 in
        attachCallbacks args (dispatchNextTask w8) waitingForDownload
  end.

(** [FileLoader.pruneStaleCache] ([gc]): one [File] per key of [metadata]. *)
Definition pruneStaleCache (w : World) (force : bool) : World :=
  foldl
    (λ w i,
       let '(w1, file) := File_new i w in
       if force || snd (expired w1 file false) then expunge w1 file else w1)
    w (map fst (map_to_list (metadata w))).

End FileLoader.

(** The world of a freshly loaded module whose property store holds [m]. *)
Definition fresh_world (m : gmap string MetaData) (files_on_disk : gmap string string)
    (now : Z) : World :=
  {| clock := now; online := true; disk_writable := true;
     disk := files_on_disk; properties := m; metadata := m;
     files := []; promises := []; dispatch_queue := []; pending_tasks := ∅;
     timers := []; http := []; turn := 0; log := [] |}.

(** * Vocabulary of the properties *)

(** [kept pr pr']: the variables of one promise, before and after.  The
    forwarding target never changes, a settled promise keeps its state, its
    values and its list of deferred callbacks, and the two lists only grow at
    their end. *)
Definition kept (pr pr' : Promise) : Prop :=
  delegate pr' = delegate pr
  ∧ (is_Some (state pr) →
       state pr' = state pr ∧ values pr' = values pr
       ∧ deferred pr' = deferred pr)
  ∧ deferred pr `prefix_of` deferred pr'
  ∧ (∀ fns, progress_fns pr = Some fns →
       ∃ more, progress_fns pr' = Some (fns ++ more)).

(** [persists w w']: the promises of [w] are still there and [kept], and so
    are its [File] objects, under the same id. *)
Definition persists (w w' : World) : Prop :=
  (∀ p pr, promises w !! p = Some pr →
     ∃ pr', promises w' !! p = Some pr' ∧ kept pr pr')
  ∧ (∀ f this, files w !! f = Some this →
       ∃ this', files w' !! f = Some this' ∧ id this' = id this).

(** [evolves w w']: [w'] comes from [w] within one turn: [w] persists, the
    turn is the same, the calls logged in between carry that turn, and
    timers and HTTP clients were only added. *)
Definition evolves (w w' : World) : Prop :=
  persists w w'
  ∧ turn w' = turn w
  ∧ (∃ calls, log w' = log w ++ calls
       ∧ Forall (λ c, call_turn c = turn w) calls)
  ∧ timers w `prefix_of` timers w'
  ∧ http w `prefix_of` http w'.

(** [promise_only w w']: nothing but the promise store and the timers
    differs. *)
Definition promise_only (w w' : World) : Prop :=
  w' = with_timers (timers w') (with_promises (promises w') w).

(** [climbs w n p r]: the [progress] and [notify] of [p] forward, in [n]
    hops, to the promise [r] that has its own. *)
Inductive climbs (w : World) : nat → nat → nat → Prop :=
  | climbs_here r pr :
      promises w !! r = Some pr → delegate pr = None → climbs w 0 r r
  | climbs_hop n p q r :
      delegate_of w p = Some q → climbs w n q r → climbs w (S n) p r.

(** The subscribers of a promise, none when [progress_fns] is [null]. *)
Definition subscribers (w : World) (p : nat) : list Fn :=
  default [] (progress_fns_of w p).

(** A consumer function that returns normally on the given arguments. *)
Definition returns (f : Fn) (args : list Value) : Prop :=
  match f with
  | FnUser _ body => ∃ v, body args = Return v
  | _ => False
  end.

(** The log entry of a call of [f] in turn [t]. *)
Definition call_of (t : nat) (f : Fn) (args : list Value) : list Call :=
  match f with
  | FnUser name _ => [{| call_turn := t; call_fn := name; call_args := args |}]
  | _ => []
  end.

(** The handler [callCallbacks] picks. *)
Definition chosen (s : option bool) (cb : Callback) : option Fn :=
  match s with
  | Some true => onFulfilled cb
  | _ => onRejected cb
  end.

(** The requests the host has not answered yet. *)
Definition outstanding (w : World) : list HTTPClient :=
  filter (λ hc, hc_done hc = false) (http w).

(** The world after [then]'s [pinkySwear()] and registration of
    [callCallbacks], before [onProgress] is subscribed. *)
Definition then_registered (w : World) (p : nat) (cb : Callback) : World :=
  let w1 := fst (pinkySwear (Some p) w) in
  match state_of w1 p with
  | Some _ => defer (TCallCallbacks p cb) w1
  | None => update_promise p (push_deferred cb) w1
  end.

(** What [callCallbacks] does with the completion of the handler. *)
Definition complete (w1 : World) (np : nat) (out : Outcome) : World :=
  match out with
  | Return (VPromise r) =>
      fst (then_ w1 r (Some (FnAdoptFulfil np)) (Some (FnAdoptReject np))
             (Some (FnAdoptNotify np)))
  | Return r => set w1 np (Some true) [r]
  | Throw e => set w1 np (Some false) [e]
  end.

(** [joined T p hs v v']: from [v] to [v'], within one turn, the handlers
    [hs] were subscribed at [T] and callbacks were added to the deferred list
    of [p]; nothing else changed that the module looks at. *)
Definition joined (T p : nat) (hs : list Fn) (v v' : World) : Prop :=
  evolves v v'
  ∧ http v' = http v
  ∧ pending_tasks v' = pending_tasks v
  ∧ dispatch_queue v' = dispatch_queue v
  ∧ timers v' = timers v
  ∧ log v' = log v
  ∧ subscribers v' T = subscribers v T ++ hs
  ∧ (∀ q, q < length (promises v) → q ≠ T →
       progress_fns_of v' q = progress_fns_of v q)
  ∧ (∀ q, q < length (promises v) →
       state_of v' q = state_of v q ∧ values_of v' q = values_of v q)
  ∧ (∀ q, q < length (promises v) → q ≠ p →
       deferred_of v' q = deferred_of v q).

(** A fetch in flight, as [download] and the tick that spawns the HTTP
    client leave it: the entry of key [k] names the promise [n + 4], which is
    pending and forwards [progress] and [notify], in four hops, to the
    ticket [n]. *)
Definition in_flight (n : nat) (k : string) (v : World) : Prop :=
  pending_tasks v !! k = Some (n + 4)
  ∧ state_of v (n + 4) = None
  ∧ climbs v 4 (n + 4) n
  ∧ climbs v 1 (n + 1) n
  ∧ n + 6 ≤ length (promises v).




Section Vocabulary.

Variable host : Host.

(** What can happen to the module between two observations: a consumer
    calls [download], [then] (also through [fail], [always], [fin], [get]) or
    [progress], invalidates an entry or collects garbage; a timer fires; the
    host reports on a request; the clock, the network or the disk change. *)
Inductive step : World → World → Prop :=
  | step_download w args : step w (fst (download host w args))
  | step_then w p onF onR onP : step w (fst (then_ w p onF onR onP))
  | step_progress w p f : step w (progress w p f)
  | step_expired w f inv : step w (fst (expired host w f inv))
  | step_gc w force : step w (pruneStaleCache host w force)
  | step_tick w : step w (tick host w)
  | step_onload w c e : step w (http_onload w c e)
  | step_onerror w c e : step w (http_onerror w c e)
  | step_ondatastream w c e : step w (http_ondatastream w c e)
  | step_clock w t : step w (with_clock t w)
  | step_online w b : step w (with_online b w)
  | step_disk_writable w b : step w (with_disk_writable b w).

(** The entry of key [i] is cached and not expired: what [new File(i)]
    followed by [is_cached && !expired()] finds. *)
Definition cached_and_fresh (w : World) (i : string) : Prop :=
  ∃ cache_data,
    metadata w !! i = Some cache_data
    ∧ is_Some (disk w !! i)
    ∧ ¬ (EXPIRATION_TIME host < clock w - md_last_used_at cache_data)%Z.

(** [download] has to fetch: no entry in flight, nothing fresh in the
    cache, and the network is there. *)
Definition fetch_required (w : World) (i : string) : Prop :=
  pending_tasks w !! i = None
  ∧ ¬ cached_and_fresh w i
  ∧ online w = true.

(** The callbacks [download] builds for one fetch, on the promises
    [n], ..., [n + 5] of the store. *)
Definition cb_spawn (n : nat) (u : string) : Callback :=
  {| onFulfilled := Some (FnSpawn u); onRejected := None; newPromise := n + 1 |}.

Definition cb_source (n : nat) : Callback :=
  {| onFulfilled := Some (FnGet "source"); onRejected := None;
     newPromise := n + 2 |}.

Definition cb_responseData (n : nat) : Callback :=
  {| onFulfilled := Some (FnGet "responseData"); onRejected := None;
     newPromise := n + 3 |}.

Definition cb_write (n : nat) (u : string) (file : nat) : Callback :=
  {| onFulfilled := Some (FnWrite u file); onRejected := None;
     newPromise := n + 4 |}.

Definition cb_cleanup (n : nat) (file : nat) : Callback :=
  {| onFulfilled := Some (FnCleanup file); onRejected := Some (FnCleanup file);
     newPromise := n + 5 |}.

(** The callback [attachCallbacks] registers for a caller. *)
Definition cb_caller (args : Args) (np : nat) : Callback :=
  {| onFulfilled := onload args; onRejected := onerror args; newPromise := np |}.

Definition has_callbacks (args : Args) : Prop :=
  is_Some (onload args) ∨ is_Some (onerror args) ∨ is_Some (ondatastream args).

(** The six promises [download] makes for one fetch, the first at index
    [n]: the ticket, the four links of the chain (the last is the one kept in
    [pending_tasks] and returned), and the promise [fin]'s [then] makes. *)
Definition pipeline (n : nat) (u : string) (file : nat) : list Promise :=
  [ push_deferred (cb_spawn n u) (pending_promise None);
    push_deferred (cb_source n) (pending_promise (Some n));
    push_deferred (cb_responseData n) (pending_promise (Some (n + 1)));
    push_deferred (cb_write n u file) (pending_promise (Some (n + 2)));
    push_deferred (cb_cleanup n file) (pending_promise (Some (n + 3)));
    pending_promise (Some (n + 4)) ].

(** The world [download] has built when it reaches its call of
    [dispatchNextTask]. *)
Definition fetch_world (w : World) (args : Args) : World :=
  let n := length (promises w) in
  let file := length (files w) in
  let i := idFromUrl host (url args) in
  with_pending_tasks (<[i := n + 4]> (pending_tasks w))
    (with_files (files w ++ [with_pending true (File_constructor i w)])
       (with_dispatch_queue (dispatch_queue w ++ [n])
          (with_promises (promises w ++ pipeline n (url args) file) w))).

(** The world of a cache hit after [updateLastUsedAt().save()] and the
    settlement of the promise made for it. *)
Definition cache_hit_world (w : World) (args : Args) : World :=
  let i := idFromUrl host (url args) in
  let file := length (files w) in
  let (w0, _) := File_new i w in
  let (w2, waitingForPath) := pinkySwear None (save (updateLastUsedAt w0 file) file) in
  set w2 waitingForPath (Some true) [VFile file].

Definition offline_world (w : World) (args : Args) : World :=
  let (w0, _) := File_new (idFromUrl host (url args)) w in
  let (w1, offlinePromise) := pinkySwear None w0 in
  set w1 offlinePromise (Some false) [VStr "Network offline"].


(** Every ticket of the queue is a promise of the store. *)
Definition tickets_valid (w : World) : Prop :=
  Forall (λ t, t < length (promises w)) (dispatch_queue w).

(** Several calls of [download] one after the other, within one turn. *)
Fixpoint downloads (w : World) (calls : list Args) : World * list nat :=
  match calls with
  | [] => (w, [])
  | args :: rest =>
      let '(w1, r) := download host w args in
      let '(w2, rs) := downloads w1 rest in
      (w2, r :: rs)
  end.


End Vocabulary.

(** [later_calls w w']: the log of [w'] is the log of [w] followed by calls
    made in turns after the turn of [w]. *)
Definition later_calls (w w' : World) : Prop :=
  turn w ≤ turn w'
  ∧ ∃ calls, log w' = log w ++ calls
      ∧ Forall (λ c, turn w < call_turn c ≤ turn w') calls.

(** [silent w w']: no consumer function was called and no turn began. *)
Definition silent (w w' : World) : Prop :=
  log w' = log w ∧ turn w' = turn w.

(** * Properties the documentation states in a stronger form *)

Section Stated.

Variable host : Host.

(** "The entry is removed before the caller's future settles": in every
    world that follows the call, a settled future of the caller means the
    entry of the key is gone. *)
Definition cleanup_precedes_settlement (w : World) (args : Args) : Prop :=
  let w1 := fst (download host w args) in
  let r := snd (download host w args) in
  ∀ w2, rtc (step host) w1 w2 →
    is_Some (state_of w2 r) →
    pending_tasks w2 !! idFromUrl host (url args) = None.




End Stated.

(** * Scenarios *)

(** A host for the examples: the digest only marks the URL, the
    configuration is the default one. *)
Definition demo_host : Host :=
  {| md5HexDigest := λ s, "md5:" +:+ s;
     cache_expiration := None;
     cache_requests := None;
     cache_path := "/data/cached_files" |}.

(** The same host with [cache_requests] set. *)
Definition host_with_limit (limit : Z) : Host :=
  {| md5HexDigest := md5HexDigest demo_host;
     cache_expiration := None;
     cache_requests := Some limit;
     cache_path := cache_path demo_host |}.

(** The module just loaded, nothing cached, at time 1000. *)
Definition start : World := fresh_world ∅ ∅ 1000.

(** [download(u)]: no callbacks. *)
Definition plain (u : string) : Args :=
  {| url := u; onload := None; onerror := None; ondatastream := None |}.

(** A consumer function that returns [undefined], and one that throws. *)
Definition observer (name : string) : Fn :=
  FnUser name (λ _, Return VUndef).

Definition thrower (name : string) (e : Value) : Fn :=
  FnUser name (λ _, Throw e).


Definition image : string := "http://example.com/image.png".

(** One plain [download] of [image]; the tick that sends the request; the
    host's [onload]; the five ticks that carry the result down the chain.
    The promise [4] returned to the caller is fulfilled, its deferred
    callbacks, the [fin] hook among them, have not run yet. *)
Definition requested : World := fst (download demo_host start (plain image)).

Definition answered : World :=
  http_onload (tick demo_host requested) 0 (load_event "PNG").

Definition settled : World := ticks demo_host 5 answered.


(** The fetch is over: all timers have fired. *)
Definition finished : World := with_clock 1500 (ticks demo_host 4 settled).

(** Eleven URLs, one more than the default limit. *)
Definition eleven : list Args :=
  map (λ i, plain ("http://example.com/" +:+ pretty i))
    [1; 2; 3; 4; 5; 6; 7; 8; 9; 10; 11]%Z.


(** Two URLs asked for when the limit is one. *)
Definition limit_one : World :=
  fst (downloads (host_with_limit 1) start
         [plain "http://example.com/x"; plain "http://example.com/y"]).

(** A [File] that is not cached. *)
Definition one_file : World := fst (File_new "md5:a" start).

(** A settled promise, and a handler about to be called on it. *)
Definition fulfilled_one : World :=
  set (fst (pinkySwear None start)) 0 (Some true) [VNum 1].

Definition about_to_throw : World :=
  fst (then_ fulfilled_one 0 (Some (thrower "boom" (VStr "oops"))) None None).





Definition about_to_throw_cb : Callback :=
  {| onFulfilled := Some (thrower "boom" (VStr "oops"));
     onRejected := None; newPromise := 1 |}.

(** * The chain of a fetch *)


(** The links from [n + j] on are pending. *)
Definition pending_links (n j : nat) (v : World) : Prop :=
  ∀ i, j ≤ i → i ≤ 5 → state_of v (n + i) = None.

(** Two worlds that differ in promises, timers and turn only. *)
Definition same_store (v v' : World) : Prop :=
  files v' = files v ∧ disk v' = disk v ∧ metadata v' = metadata v
  ∧ properties v' = properties v ∧ pending_tasks v' = pending_tasks v
  ∧ dispatch_queue v' = dispatch_queue v ∧ http v' = http v
  ∧ log v' = log v ∧ clock v' = clock v ∧ online v' = online v
  ∧ disk_writable v' = disk_writable v.






(** * More scenarios *)

(** Long after the fetch of [image]: the clock shows a date of 2023. *)
Definition much_later : World := with_clock 1700000000000 finished.

(** The [File] object the fetch of [image] leaves in the store. *)
Definition image_file : File :=
  {| id := "md5:http://example.com/image.png"; is_cached := true;
     last_used_at := 1000; md5 := Some "md5:PNG"; pending := false;
     downloaded := true |}.

(** A promise with two continuations, fulfilled with [7]. *)
Definition two_observers : World :=
  let w0 := fst (pinkySwear None start) in
  let w1 := fst (then_ w0 0 (Some (observer "first")) None None) in
  let w2 := fst (then_ w1 0 (Some (thrower "second" (VStr "oops"))) None None) in
  let w3 := fst (then_ w2 0 (Some (observer "third")) None None) in
  set w3 0 (Some true) [VNum 7].

(** A rejected promise, a moment later; [then] with a handler for the
    rejection, and [then] without one. *)
Definition rejected_one : World :=
  tick demo_host (set (fst (pinkySwear None start)) 0 (Some false) [VStr "no"]).

Definition rescue_cb : Callback :=
  {| onFulfilled := None; onRejected := Some (observer "rescue");
     newPromise := 1 |}.

Definition onlooker_cb : Callback :=
  {| onFulfilled := Some (observer "seen"); onRejected := None;
     newPromise := 1 |}.

Definition about_to_rescue : World :=
  fst (then_ rejected_one 0 None (Some (observer "rescue")) None).

Definition about_to_pass : World :=
  fst (then_ rejected_one 0 (Some (observer "seen")) None None).

(** Promise [0] is fulfilled and its continuation, whose handler returns
    the pending promise [1], is about to run; [2] is the promise [then]
    returned. *)
Definition fetcher : Fn := FnUser "fetch" (λ _, Return (VPromise 1)).

Definition fetcher_cb : Callback :=
  {| onFulfilled := Some fetcher; onRejected := None; newPromise := 2 |}.

Definition about_to_adopt : World :=
  let w0 := fst (pinkySwear None start) in
  let w1 := fst (pinkySwear None w0) in
  let w2 := fst (then_ w1 0 (Some fetcher) None None) in
  with_timers [] (set w2 0 (Some true) [VNum 1]).


(** A pending promise; the same with three subscribers, the second of
    which throws, and an event on its way. *)
Definition lone_promise : World := fst (pinkySwear None start).

Definition noisy : World :=
  let w1 := progress lone_promise 0 (observer "a") in
  let w2 := progress w1 0 (thrower "b" (VStr "oops")) in
  let w3 := progress w2 0 (observer "c") in
  notify w3 0 (VNum 5).







(** * What every piece of the program preserves *)

Lemma kept_refl pr : kept pr pr.
Proof.
  repeat split; auto. intros fns ->. exists []. by rewrite app_nil_r.
Qed.

Lemma kept_trans pr1 pr2 pr3 : kept pr1 pr2 → kept pr2 pr3 → kept pr1 pr3.
Proof.
  intros (Hd1 & Hs1 & Hp1 & Hf1) (Hd2 & Hs2 & Hp2 & Hf2).
  split; [congruence|]. split; [|split].
  - intros Hsome. destruct (Hs1 Hsome) as (E1 & E2 & E3).
    assert (is_Some (state pr2)) as Hsome2 by (by rewrite E1).
    destruct (Hs2 Hsome2) as (F1 & F2 & F3).
    repeat split; congruence.
  - by etrans.
  - intros fns Hfns. destruct (Hf1 _ Hfns) as (m1 & Hm1).
    destruct (Hf2 _ Hm1) as (m2 & Hm2).
    exists (m1 ++ m2). by rewrite Hm2, app_assoc.
Qed.

Lemma persists_refl w : persists w w.
Proof.
  split.
  - intros p pr Hp. exists pr. split; [done|apply kept_refl].
  - intros f this Hf. by exists this.
Qed.

Lemma persists_trans w1 w2 w3 : persists w1 w2 → persists w2 w3 → persists w1 w3.
Proof.
  intros [H1 G1] [H2 G2]. split.
  - intros p pr Hp. destruct (H1 _ _ Hp) as (pr2 & Hp2 & Hk2).
    destruct (H2 _ _ Hp2) as (pr3 & Hp3 & Hk3).
    exists pr3. split; [done|]. by eapply kept_trans.
  - intros f this Hf. destruct (G1 _ _ Hf) as (t2 & Hf2 & E2).
    destruct (G2 _ _ Hf2) as (t3 & Hf3 & E3).
    exists t3. split; [done|congruence].
Qed.

Lemma persists_frame w w' :
  promises w' = promises w → files w' = files w → persists w w'.
Proof.
  intros Hp Hf. split.
  - intros p pr Hpr. exists pr. rewrite Hp. split; [done|apply kept_refl].
  - intros f this Hthis. exists this. by rewrite Hf.
Qed.

Lemma evolves_persists w w' : evolves w w' → persists w w'.
Proof. by intros [H _]. Qed.

Lemma evolves_refl w : evolves w w.
Proof.
  split; [apply persists_refl|]. split; [done|]. split; [|done].
  exists []. by rewrite app_nil_r.
Qed.

Lemma evolves_trans w1 w2 w3 : evolves w1 w2 → evolves w2 w3 → evolves w1 w3.
Proof.
  intros (Hg1 & Ht1 & (c1 & Hl1 & Hc1) & Hq1 & Hh1)
         (Hg2 & Ht2 & (c2 & Hl2 & Hc2) & Hq2 & Hh2).
  split; [by eapply persists_trans|]. split; [congruence|].
  split; [|split; by etrans].
  exists (c1 ++ c2). split; [by rewrite Hl2, Hl1, app_assoc|].
  apply Forall_app. split; [done|]. by rewrite <- Ht1.
Qed.

(** A change outside the two stores, the turn, the log and the queues. *)
Lemma evolves_frame w w' :
  promises w' = promises w → files w' = files w → turn w' = turn w →
  log w' = log w → timers w' = timers w → http w' = http w →
  evolves w w'.
Proof.
  intros Hp Hf Ht Hl Hq Hh.
  split; [by apply persists_frame|]. split; [done|].
  split; [|by rewrite Hq, Hh].
  exists []. by rewrite Hl, app_nil_r.
Qed.

Lemma evolves_defer t w : evolves w (defer t w).
Proof.
  split; [by apply persists_frame|]. split; [done|].
  split; [|split; [by exists [t]|done]].
  exists []. by rewrite app_nil_r.
Qed.

Lemma evolves_pinkySwear dlg w : evolves w (fst (pinkySwear dlg w)).
Proof.
  split; [|split; [done|split; [|done]]].
  - split.
    + intros p pr Hp. exists pr. split; [|apply kept_refl].
      simpl. by apply lookup_app_l_Some.
    + intros f this Hf. by exists this.
  - exists []. by rewrite app_nil_r.
Qed.

Lemma evolves_update_promise p f w :
  (∀ pr, promises w !! p = Some pr → kept pr (f pr)) →
  evolves w (update_promise p f w).
Proof.
  intros Hf. split; [|split; [done|split; [|done]]].
  - split.
    + intros q pr Hq. simpl. destruct (decide (q = p)) as [->|Hne].
      * exists (f pr). rewrite list_lookup_alter_eq, Hq. split; [done|by apply Hf].
      * exists pr. rewrite list_lookup_alter_ne by done.
        split; [done|apply kept_refl].
    + intros g this Hg. by exists this.
  - exists []. by rewrite app_nil_r.
Qed.

Lemma evolves_update_file f g w :
  (∀ this, id (g this) = id this) → evolves w (update_file f g w).
Proof.
  intros Hg. split; [|split; [done|split; [|done]]].
  - split.
    + intros p pr Hp. exists pr. split; [done|apply kept_refl].
    + intros f' this Hf. simpl. destruct (decide (f' = f)) as [->|Hne].
      * exists (g this). by rewrite list_lookup_alter_eq, Hf.
      * exists this. by rewrite list_lookup_alter_ne.
  - exists []. by rewrite app_nil_r.
Qed.

Lemma evolves_set w p s vs : evolves w (set w p s vs).
Proof.
  unfold set. destruct (state_of w p) eqn:Hs; [apply evolves_refl|].
  eapply evolves_trans; [|apply evolves_defer].
  apply evolves_update_promise. intros pr Hpr.
  unfold state_of in Hs. rewrite Hpr in Hs.
  split; [done|]. split; [|split].
  - rewrite Hs. by intros [? ?].
  - done.
  - simpl. intros fns ->. exists []. by rewrite app_nil_r.
Qed.

Lemma evolves_progress_at fuel w p f : evolves w (progress_at fuel w p f).
Proof.
  revert p. induction fuel as [|k IH]; intros p; simpl; [apply evolves_refl|].
  destruct (delegate_of w p); [apply IH|].
  apply evolves_update_promise. intros pr _.
  split; [done|]. split; [by intros _|]. split; [done|].
  simpl. intros fns ->. by exists [f].
Qed.

Lemma evolves_progress w p f : evolves w (progress w p f).
Proof. apply evolves_progress_at. Qed.

Lemma evolves_notify_at fuel w p v : evolves w (notify_at fuel w p v).
Proof.
  revert p. induction fuel as [|k IH]; intros p; simpl; [apply evolves_refl|].
  destruct (delegate_of w p); [apply IH|apply evolves_defer].
Qed.

Lemma evolves_notify w p v : evolves w (notify w p v).
Proof. apply evolves_notify_at. Qed.

Lemma evolves_then w p onF onR onP : evolves w (fst (then_ w p onF onR onP)).
Proof.
  unfold then_.
  destruct (pinkySwear (Some p) w) as [w1 np] eqn:Hps.
  assert (evolves w w1) as H1.
  { replace w1 with (fst (pinkySwear (Some p) w)) by (by rewrite Hps).
    apply evolves_pinkySwear. }
  simpl. eapply evolves_trans; [exact H1|].
  set (cb := {| onFulfilled := onF; onRejected := onR; newPromise := np |}).
  assert (evolves w1
            match state_of w1 p with
            | Some _ => defer (TCallCallbacks p cb) w1
            | None => update_promise p (push_deferred cb) w1
            end) as H2.
  { destruct (state_of w1 p) eqn:Hs; [apply evolves_defer|].
    apply evolves_update_promise. intros pr Hpr.
    unfold state_of in Hs. rewrite Hpr in Hs.
    split; [done|]. split; [|split].
    - rewrite Hs. by intros [? ?].
    - by exists [cb].
    - simpl. intros fns ->. exists []. by rewrite app_nil_r. }
  destruct onP; [|exact H2].
  eapply evolves_trans; [exact H2|apply evolves_progress].
Qed.

Section Preservation.

Variable host : Host.

Lemma evolves_updateLastUsedAt w f : evolves w (updateLastUsedAt w f).
Proof. by apply evolves_update_file. Qed.

Lemma evolves_save w f : evolves w (save w f).
Proof.
  unfold save. destruct (files w !! f); [|apply evolves_refl].
  eapply evolves_trans; [|by apply evolves_update_file].
  by apply evolves_frame.
Qed.

Lemma evolves_write w f data : evolves w (fst (write host w f data)).
Proof.
  unfold write. destruct (files w !! f); [|apply evolves_refl]. simpl.
  eapply evolves_trans; [|by apply evolves_update_file].
  destruct (disk_writable w); [by apply evolves_frame|apply evolves_refl].
Qed.

Lemma evolves_File_new i w : evolves w (fst (File_new i w)).
Proof.
  split; [|split; [done|split; [|done]]].
  - split.
    + intros p pr Hp. exists pr. split; [done|apply kept_refl].
    + intros f this Hf. exists this. split; [|done].
      simpl. by apply lookup_app_l_Some.
  - exists []. by rewrite app_nil_r.
Qed.

Lemma evolves_expired w f inv : evolves w (fst (expired host w f inv)).
Proof.
  unfold expired. destruct inv; [|apply evolves_refl]. cbn [fst].
  eapply evolves_trans; [|apply evolves_save]. by apply evolves_update_file.
Qed.

Lemma evolves_expunge w f : evolves w (expunge w f).
Proof.
  unfold expunge. destruct (files w !! f); [|apply evolves_refl].
  eapply evolves_trans; [|by apply evolves_update_file].
  by apply evolves_frame.
Qed.

Lemma evolves_requestDispatch w : evolves w (fst (requestDispatch w)).
Proof.
  unfold requestDispatch.
  eapply evolves_trans; [apply (evolves_pinkySwear None)|].
  by apply evolves_frame.
Qed.

Lemma evolves_dispatchNextTask w : evolves w (dispatchNextTask host w).
Proof.
  unfold dispatchNextTask. case_bool_decide; [|apply evolves_refl].
  destruct (dispatch_queue w) as [|task rest]; [apply evolves_refl|].
  eapply evolves_trans; [|apply evolves_set]. by apply evolves_frame.
Qed.

Lemma evolves_spawnHTTPClient w u p : evolves w (spawnHTTPClient w u p).
Proof.
  split; [by apply persists_frame|]. split; [done|].
  split; [|split; [done|by eexists]].
  exists []. by rewrite app_nil_r.
Qed.

Lemma evolves_apply_fn w f args : evolves w (fst (apply_fn host w f args)).
Proof.
  destruct f as [u|prop|u file|file|np|np|np|name body]; simpl.
  - eapply evolves_trans; [apply (evolves_pinkySwear None)|].
    apply evolves_spawnHTTPClient.
  - apply evolves_refl.
  - destruct (write host w file (arg0 args)) as [w1 ok] eqn:Hw.
    assert (evolves w w1) as H1.
    { replace w1 with (fst (write host w file (arg0 args))) by (by rewrite Hw).
      apply evolves_write. }
    destruct ok; simpl; [|exact H1].
    eapply evolves_trans; [exact H1|].
    eapply evolves_trans; [|apply evolves_save].
    eapply evolves_trans; [|apply evolves_updateLastUsedAt].
    by apply evolves_update_file.
  - eapply evolves_trans; [|apply evolves_dispatchNextTask].
    eapply evolves_trans; [|by apply evolves_update_file].
    destruct (files w !! file); [by apply evolves_frame|apply evolves_refl].
  - apply evolves_set.
  - apply evolves_set.
  - apply evolves_notify.
  - split; [by apply persists_frame|]. split; [done|]. split; [|done].
    eexists. split; [reflexivity|]. by repeat constructor.
Qed.

Lemma evolves_callCallbacks w p cb : evolves w (callCallbacks host w p cb).
Proof.
  unfold callCallbacks.
  destruct (match state_of w p with Some true => onFulfilled cb | _ => onRejected cb end)
    as [fn|]; [|apply evolves_set].
  destruct (apply_fn host w fn (values_of w p)) as [w1 out] eqn:Ha.
  assert (evolves w w1) as H1.
  { replace w1 with (fst (apply_fn host w fn (values_of w p))) by (by rewrite Ha).
    apply evolves_apply_fn. }
  destruct out as [r|e].
  - destruct r; try (eapply evolves_trans; [exact H1|apply evolves_set]).
    eapply evolves_trans; [exact H1|apply evolves_then].
  - eapply evolves_trans; [exact H1|apply evolves_set].
Qed.

Lemma evolves_run_deferred fuel w p i : evolves w (run_deferred host fuel w p i).
Proof.
  revert w i. induction fuel as [|k IH]; intros w i; simpl; [apply evolves_refl|].
  destruct (deferred_of w p !! i) as [cb|]; [|apply evolves_refl].
  eapply evolves_trans; [apply evolves_callCallbacks|apply IH].
Qed.

Lemma evolves_run_progress fuel w p i v : evolves w (run_progress host fuel w p i v).
Proof.
  revert w i. induction fuel as [|k IH]; intros w i; simpl; [apply evolves_refl|].
  destruct (progress_fns_of w p) as [fns|]; [|apply evolves_refl].
  destruct (fns !! i) as [fn|]; [|apply evolves_refl].
  destruct (apply_fn host w fn [v]) as [w1 out] eqn:Ha.
  assert (evolves w w1) as H1.
  { replace w1 with (fst (apply_fn host w fn [v])) by (by rewrite Ha).
    apply evolves_apply_fn. }
  destruct out; [|exact H1].
  eapply evolves_trans; [exact H1|apply IH].
Qed.

Lemma evolves_run_task w t : evolves w (run_task host w t).
Proof.
  destruct t; cbn [run_task].
  - apply evolves_run_deferred.
  - apply evolves_callCallbacks.
  - apply evolves_run_progress.
Qed.

Lemma evolves_attachCallbacks args w p : evolves w (fst (attachCallbacks args w p)).
Proof.
  unfold attachCallbacks. case_bool_decide; [apply evolves_then|apply evolves_refl].
Qed.

(** A preorder that holds of the primitives [download] is made of holds of
    [download]. *)
Lemma download_preserves (R : relation World) `{!PreOrder R} :
  (∀ w i, R w (fst (File_new i w))) →
  (∀ w f g, (∀ this, id (g this) = id this) → R w (update_file f g w)) →
  (∀ w m, R w (with_metadata m w)) →
  (∀ w m, R w (with_properties m w)) →
  (∀ w d, R w (fst (pinkySwear d w))) →
  (∀ w p s vs, R w (set w p s vs)) →
  (∀ w p onF onR onP, R w (fst (then_ w p onF onR onP))) →
  (∀ w q, R w (with_dispatch_queue q w)) →
  (∀ w t, R w (with_pending_tasks t w)) →
  ∀ w args, R w (fst (download host w args)).
Proof.
  intros Hnew Hfile Hmeta Hprop Hps Hset Hthen Hqueue Hpending w args.
  assert (∀ w f, R w (save w f)) as Hsave.
  { intros v f. unfold save. destruct (files v !! f); [|done].
    etrans; [apply Hmeta|]. etrans; [apply Hprop|]. by apply Hfile. }
  assert (∀ w a p, R w (fst (attachCallbacks a w p))) as Hattach.
  { intros v a p. unfold attachCallbacks. case_bool_decide; [apply Hthen|done]. }
  assert (∀ w, R w (dispatchNextTask host w)) as Hdispatch.
  { intros v. unfold dispatchNextTask. case_bool_decide; [|done].
    destruct (dispatch_queue v) as [|task rest]; [done|].
    etrans; [apply Hqueue|apply Hset]. }
  unfold download, fromURL.
  destruct (File_new (idFromUrl host (url args)) w) as [w0 file] eqn:H0.
  etrans; [apply (Hnew w (idFromUrl host (url args)))|]. rewrite H0. cbn [fst].
  clear H0.
  destruct (pending_tasks w0 !! idFromUrl host (url args)) as [inflight|].
  { apply Hattach. }
  match goal with |- context [if ?c then _ else _] => destruct c end.
  { cbn [pinkySwear].
    etrans; [|apply Hattach]. etrans; [|apply Hset].
    etrans; [|apply (Hps _ None)]. etrans; [|apply Hsave]. by apply Hfile. }
  destruct (negb (online w0)).
  { cbn [pinkySwear].
    etrans; [|apply Hattach]. etrans; [|apply Hset]. apply (Hps _ None). }
  unfold requestDispatch, get, fin. cbn [pinkySwear].
  match goal with
  | |- context [then_ ?v ?p ?a ?b ?c] =>
      etrans; [etrans; [apply (Hps w0 None)|apply (Hqueue _ (dispatch_queue v))]|];
      etrans; [apply (Hthen v p a b c)|];
      destruct (then_ v p a b c) as [w2 p1]
  end.
  match goal with
  | |- context [then_ w2 ?p ?a ?b ?c] =>
      etrans; [apply (Hthen w2 p a b c)|];
      destruct (then_ w2 p a b c) as [w3 p2]
  end.
  match goal with
  | |- context [then_ w3 ?p ?a ?b ?c] =>
      etrans; [apply (Hthen w3 p a b c)|];
      destruct (then_ w3 p a b c) as [w4 p3]
  end.
  match goal with
  | |- context [then_ w4 ?p ?a ?b ?c] =>
      etrans; [apply (Hthen w4 p a b c)|];
      destruct (then_ w4 p a b c) as [w5 p4]
  end.
  match goal with
  | |- context [then_ w5 ?p ?a ?b ?c] =>
      etrans; [apply (Hthen w5 p a b c)|];
      destruct (then_ w5 p a b c) as [w6 p5]
  end.
  cbn [fst snd].
  etrans; [|apply Hattach]. etrans; [|apply Hdispatch].
  etrans; [|apply Hpending]. by apply Hfile.
Qed.

Global Instance evolves_preorder : PreOrder evolves.
Proof. split; [exact evolves_refl|exact evolves_trans]. Qed.

Lemma evolves_download w args : evolves w (fst (download host w args)).
Proof.
  apply (download_preserves evolves).
  - intros v i. apply evolves_File_new.
  - intros v f g. apply evolves_update_file.
  - intros v m. by apply evolves_frame.
  - intros v m. by apply evolves_frame.
  - intros v d. apply evolves_pinkySwear.
  - apply evolves_set.
  - apply evolves_then.
  - intros v q. by apply evolves_frame.
  - intros v t. by apply evolves_frame.
Qed.

Lemma evolves_pruneStaleCache w force : evolves w (pruneStaleCache host w force).
Proof.
  unfold pruneStaleCache.
  generalize (map fst (map_to_list (metadata w))). intros keys.
  revert w. induction keys as [|i keys IH]; intros w; simpl; [apply evolves_refl|].
  eapply evolves_trans; [|apply IH].
  match goal with |- context [if ?c then _ else _] => destruct c end.
  - eapply evolves_trans; [apply (evolves_File_new i)|apply evolves_expunge].
  - apply (evolves_File_new i).
Qed.

(** ** Across turns *)

Lemma persists_tick w : persists w (tick host w).
Proof.
  unfold tick. destruct (timers w) as [|t rest]; [apply persists_refl|].
  eapply persists_trans; [|apply evolves_persists, evolves_run_task].
  by apply persists_frame.
Qed.

Lemma persists_http_onload w c e : persists w (http_onload w c e).
Proof.
  unfold http_onload. destruct (http w !! c) as [hc|]; [|apply persists_refl].
  destruct (hc_done hc); [apply persists_refl|].
  eapply persists_trans; [|apply evolves_persists, evolves_set].
  by apply persists_frame.
Qed.

Lemma persists_http_onerror w c e : persists w (http_onerror w c e).
Proof.
  unfold http_onerror. destruct (http w !! c) as [hc|]; [|apply persists_refl].
  destruct (hc_done hc); [apply persists_refl|].
  eapply persists_trans; [|apply evolves_persists, evolves_set].
  by apply persists_frame.
Qed.

Lemma persists_http_ondatastream w c e : persists w (http_ondatastream w c e).
Proof.
  unfold http_ondatastream. destruct (http w !! c) as [hc|]; [|apply persists_refl].
  destruct (hc_done hc); [apply persists_refl|].
  eapply persists_trans; [|apply evolves_persists, evolves_notify].
  by apply persists_frame.
Qed.

Lemma persists_step w w' : step host w w' → persists w w'.
Proof.
  destruct 1.
  - apply evolves_persists, evolves_download.
  - apply evolves_persists, evolves_then.
  - apply evolves_persists, evolves_progress.
  - apply evolves_persists, evolves_expired.
  - apply evolves_persists, evolves_pruneStaleCache.
  - apply persists_tick.
  - apply persists_http_onload.
  - apply persists_http_onerror.
  - apply persists_http_ondatastream.
  - by apply persists_frame.
  - by apply persists_frame.
  - by apply persists_frame.
Qed.

Lemma persists_steps w w' : rtc (step host) w w' → persists w w'.
Proof.
  induction 1 as [|w1 w2 w3 H12 _ IH]; [apply persists_refl|].
  eapply persists_trans; [by apply persists_step|exact IH].
Qed.

End Preservation.

Lemma persists_settled w w' p b :
  persists w w' → state_of w p = Some b →
  state_of w' p = Some b ∧ values_of w' p = values_of w p
  ∧ deferred_of w' p = deferred_of w p.
Proof.
  intros [Hper _] Hs. unfold state_of, values_of, deferred_of in *.
  destruct (promises w !! p) as [pr|] eqn:Hp; [|done].
  destruct (Hper _ _ Hp) as (pr' & -> & _ & Hk & _).
  destruct Hk as (E1 & E2 & E3); [by rewrite Hs|].
  by rewrite E1, E2, E3.
Qed.

Lemma persists_delegate w w' p pr :
  persists w w' → promises w !! p = Some pr →
  delegate_of w' p = delegate pr.
Proof.
  intros [Hper _] Hp. unfold delegate_of.
  by destruct (Hper _ _ Hp) as (pr' & -> & -> & _).
Qed.

Lemma persists_length w w' :
  persists w w' → length (promises w) ≤ length (promises w').
Proof.
  intros [Hper _].
  destruct (decide (length (promises w) = 0)) as [|Hne]; [lia|].
  destruct (lookup_lt_is_Some_2 (promises w) (length (promises w) - 1)) as [pr Hpr];
    [lia|].
  destruct (Hper _ _ Hpr) as (pr' & Hpr' & _).
  apply lookup_lt_Some in Hpr'. lia.
Qed.

Lemma persists_climbs w w' n p r :
  persists w w' → climbs w n p r → climbs w' n p r.
Proof.
  intros Hper. induction 1 as [r pr Hr Hd|n p q r Hd _ IH].
  - destruct Hper as [Hper _].
    destruct (Hper _ _ Hr) as (pr' & Hr' & Hd' & _).
    eapply climbs_here; [exact Hr'|congruence].
  - eapply climbs_hop; [|exact IH].
    unfold delegate_of in Hd.
    destruct (promises w !! p) as [pr|] eqn:Hp; [|done].
    by rewrite (persists_delegate w w' p pr).
Qed.

(** * Reading the promise store after the primitive operations *)

Lemma lookup_app_at {A} (l k : list A) (i : nat) :
  (l ++ k) !! (length l + i) = k !! i.
Proof. rewrite lookup_app_r by lia. f_equal. lia. Qed.

Lemma promise_only_refl w : promise_only w w.
Proof. by destruct w. Qed.

Lemma promise_only_trans w1 w2 w3 :
  promise_only w1 w2 → promise_only w2 w3 → promise_only w1 w3.
Proof. unfold promise_only. intros H1 H2. rewrite H2, H1. by destruct w1. Qed.

Lemma promise_only_defer t w : promise_only w (defer t w).
Proof. by destruct w. Qed.

Lemma promise_only_update_promise p f w : promise_only w (update_promise p f w).
Proof. by destruct w. Qed.

Lemma promise_only_pinkySwear dlg w : promise_only w (fst (pinkySwear dlg w)).
Proof. by destruct w. Qed.

Lemma promise_only_set w p s vs : promise_only w (set w p s vs).
Proof.
  unfold set. destruct (state_of w p); [apply promise_only_refl|].
  eapply promise_only_trans;
    [apply promise_only_update_promise|apply promise_only_defer].
Qed.

Lemma promise_only_progress_at fuel w p f : promise_only w (progress_at fuel w p f).
Proof.
  revert p. induction fuel as [|k IH]; intros p; simpl; [apply promise_only_refl|].
  destruct (delegate_of w p); [apply IH|apply promise_only_update_promise].
Qed.

Lemma promise_only_notify_at fuel w p v : promise_only w (notify_at fuel w p v).
Proof.
  revert p. induction fuel as [|k IH]; intros p; simpl; [apply promise_only_refl|].
  destruct (delegate_of w p); [apply IH|apply promise_only_defer].
Qed.

Lemma promise_only_then w p onF onR onP :
  promise_only w (fst (then_ w p onF onR onP)).
Proof.
  unfold then_. cbn [pinkySwear fst].
  set (w1 := with_promises _ w).
  assert (promise_only w w1) as H1 by apply (promise_only_pinkySwear (Some p)).
  eapply promise_only_trans; [exact H1|].
  set (w2 := match state_of w1 p with Some _ => _ | None => _ end).
  assert (promise_only w1 w2) as H2.
  { subst w2. destruct (state_of w1 p);
      [apply promise_only_defer|apply promise_only_update_promise]. }
  destruct onP; [|exact H2].
  eapply promise_only_trans; [exact H2|apply promise_only_progress_at].
Qed.

Lemma promise_only_attachCallbacks args w p :
  promise_only w (fst (attachCallbacks args w p)).
Proof.
  unfold attachCallbacks.
  case_bool_decide; [apply promise_only_then|apply promise_only_refl].
Qed.

(** What [promise_only] leaves alone. *)
Lemma promise_only_http w w' : promise_only w w' → http w' = http w.
Proof. by intros ->. Qed.

Lemma promise_only_pending_tasks w w' :
  promise_only w w' → pending_tasks w' = pending_tasks w.
Proof. by intros ->. Qed.

Lemma promise_only_dispatch_queue w w' :
  promise_only w w' → dispatch_queue w' = dispatch_queue w.
Proof. by intros ->. Qed.

Lemma promise_only_files w w' : promise_only w w' → files w' = files w.
Proof. by intros ->. Qed.

Lemma promise_only_log w w' : promise_only w w' → log w' = log w.
Proof. by intros ->. Qed.

Lemma promise_only_turn w w' : promise_only w w' → turn w' = turn w.
Proof. by intros ->. Qed.

Lemma promise_only_metadata w w' : promise_only w w' → metadata w' = metadata w.
Proof. by intros ->. Qed.

Lemma promise_only_properties w w' :
  promise_only w w' → properties w' = properties w.
Proof. by intros ->. Qed.


Lemma promise_only_clock w w' : promise_only w w' → clock w' = clock w.
Proof. by intros ->. Qed.

Lemma promise_only_online w w' : promise_only w w' → online w' = online w.
Proof. by intros ->. Qed.

(** ** [progress] and [notify] along a forwarding chain *)

Lemma climbs_delegate_root w n p r : climbs w n p r → delegate_of w r = None.
Proof.
  induction 1 as [r pr Hr Hd|]; [|done]. unfold delegate_of. by rewrite Hr.
Qed.

Lemma climbs_valid w n p r : climbs w n p r → r < length (promises w).
Proof.
  induction 1 as [r pr Hr Hd|]; [|done]. by eapply lookup_lt_Some.
Qed.

Lemma progress_at_climbs w n p r f fuel :
  climbs w n p r → n < fuel →
  progress_at fuel w p f = update_promise r (push_progress f) w.
Proof.
  intros Hc. revert fuel. induction Hc as [r pr Hr Hd|n p q r Hd _ IH];
    intros fuel Hlt; (destruct fuel as [|k]; [lia|]); simpl.
  - unfold delegate_of. by rewrite Hr, Hd.
  - rewrite Hd. apply IH. lia.
Qed.

Lemma progress_climbs w n p r f :
  climbs w n p r → n ≤ length (promises w) →
  progress w p f = update_promise r (push_progress f) w.
Proof. intros Hc Hn. apply (progress_at_climbs w n); [done|lia]. Qed.

Lemma notify_at_climbs w n p r v fuel :
  climbs w n p r → n < fuel →
  notify_at fuel w p v = defer (TNotify r v) w.
Proof.
  intros Hc. revert fuel. induction Hc as [r pr Hr Hd|n p q r Hd _ IH];
    intros fuel Hlt; (destruct fuel as [|k]; [lia|]); simpl.
  - unfold delegate_of. by rewrite Hr, Hd.
  - rewrite Hd. apply IH. lia.
Qed.

Lemma notify_climbs w n p r v :
  climbs w n p r → n ≤ length (promises w) →
  notify w p v = defer (TNotify r v) w.
Proof. intros Hc Hn. apply (notify_at_climbs w n); [done|lia]. Qed.

(** ** Accessors after [update_promise] *)

Lemma promises_update_promise_ne p q f w :
  q ≠ p → promises (update_promise p f w) !! q = promises w !! q.
Proof. intros Hne. simpl. by rewrite list_lookup_alter_ne. Qed.

Lemma promises_update_promise_eq p f w :
  promises (update_promise p f w) !! p = f <$> promises w !! p.
Proof. simpl. by rewrite list_lookup_alter_eq. Qed.

Lemma length_update_promise p f w :
  length (promises (update_promise p f w)) = length (promises w).
Proof. simpl. by rewrite length_alter. Qed.

(** An update that keeps a projection of every promise keeps the
    corresponding accessor. *)
Lemma update_promise_accessor {A} (get : Promise → A) (d : A) p f w q :
  (∀ pr, get (f pr) = get pr) →
  match promises (update_promise p f w) !! q with
  | Some pr => get pr
  | None => d
  end
  = match promises w !! q with Some pr => get pr | None => d end.
Proof.
  intros Hget. destruct (decide (q = p)) as [->|Hne].
  - rewrite promises_update_promise_eq.
    destruct (promises w !! p); simpl; [apply Hget|done].
  - by rewrite promises_update_promise_ne.
Qed.

Lemma state_of_push_progress r f w q :
  state_of (update_promise r (push_progress f) w) q = state_of w q.
Proof. by apply (update_promise_accessor state None). Qed.

Lemma values_of_push_progress r f w q :
  values_of (update_promise r (push_progress f) w) q = values_of w q.
Proof. by apply (update_promise_accessor values []). Qed.

Lemma deferred_of_push_progress r f w q :
  deferred_of (update_promise r (push_progress f) w) q = deferred_of w q.
Proof. by apply (update_promise_accessor deferred []). Qed.

Lemma delegate_of_push_progress r f w q :
  delegate_of (update_promise r (push_progress f) w) q = delegate_of w q.
Proof. by apply (update_promise_accessor delegate None). Qed.

Lemma state_of_push_deferred r cb w q :
  state_of (update_promise r (push_deferred cb) w) q = state_of w q.
Proof. by apply (update_promise_accessor state None). Qed.

Lemma values_of_push_deferred r cb w q :
  values_of (update_promise r (push_deferred cb) w) q = values_of w q.
Proof. by apply (update_promise_accessor values []). Qed.

Lemma delegate_of_push_deferred r cb w q :
  delegate_of (update_promise r (push_deferred cb) w) q = delegate_of w q.
Proof. by apply (update_promise_accessor delegate None). Qed.

Lemma progress_fns_of_push_deferred r cb w q :
  progress_fns_of (update_promise r (push_deferred cb) w) q = progress_fns_of w q.
Proof. by apply (update_promise_accessor progress_fns None). Qed.

Lemma delegate_of_assign r s vs w q :
  delegate_of (update_promise r (assign s vs) w) q = delegate_of w q.
Proof. by apply (update_promise_accessor delegate None). Qed.

Lemma deferred_of_assign r s vs w q :
  deferred_of (update_promise r (assign s vs) w) q = deferred_of w q.
Proof. by apply (update_promise_accessor deferred []). Qed.

Lemma progress_fns_of_assign r s vs w q :
  progress_fns_of (update_promise r (assign s vs) w) q = progress_fns_of w q.
Proof. by apply (update_promise_accessor progress_fns None). Qed.

Lemma subscribers_push_progress r f w :
  r < length (promises w) →
  subscribers (update_promise r (push_progress f) w) r = subscribers w r ++ [f].
Proof.
  intros Hlt. destruct (lookup_lt_is_Some_2 _ _ Hlt) as [pr Hpr].
  unfold subscribers, progress_fns_of.
  by rewrite promises_update_promise_eq, Hpr.
Qed.

Lemma deferred_of_push_deferred_eq r cb w :
  r < length (promises w) →
  deferred_of (update_promise r (push_deferred cb) w) r = deferred_of w r ++ [cb].
Proof.
  intros Hlt. destruct (lookup_lt_is_Some_2 _ _ Hlt) as [pr Hpr].
  unfold deferred_of. by rewrite promises_update_promise_eq, Hpr.
Qed.

Lemma deferred_of_push_deferred_ne r cb w q :
  q ≠ r → deferred_of (update_promise r (push_deferred cb) w) q = deferred_of w q.
Proof. intros Hne. unfold deferred_of. by rewrite promises_update_promise_ne. Qed.

Lemma progress_fns_of_push_progress_ne r f w q :
  q ≠ r →
  progress_fns_of (update_promise r (push_progress f) w) q = progress_fns_of w q.
Proof. intros Hne. unfold progress_fns_of. by rewrite promises_update_promise_ne. Qed.

(** ** A fresh promise *)

Lemma pinkySwear_snd dlg w : snd (pinkySwear dlg w) = length (promises w).
Proof. done. Qed.

Lemma promises_pinkySwear_old dlg w q :
  q < length (promises w) →
  promises (fst (pinkySwear dlg w)) !! q = promises w !! q.
Proof. intros Hq. simpl. by rewrite lookup_app_l. Qed.

Lemma promises_pinkySwear_new dlg w :
  promises (fst (pinkySwear dlg w)) !! length (promises w)
  = Some (pending_promise dlg).
Proof. simpl. by rewrite list_lookup_middle. Qed.

Lemma length_pinkySwear dlg w :
  length (promises (fst (pinkySwear dlg w))) = S (length (promises w)).
Proof. simpl. rewrite length_app. simpl. lia. Qed.

Lemma climbs_pinkySwear dlg w n p r :
  climbs w n p r → climbs (fst (pinkySwear dlg w)) n p r.
Proof.
  apply persists_climbs, evolves_persists, evolves_pinkySwear.
Qed.

(** ** Accessors after [progress] *)

Lemma state_of_progress_at fuel w p f q :
  state_of (progress_at fuel w p f) q = state_of w q.
Proof.
  revert p. induction fuel as [|k IH]; intros p; simpl; [done|].
  destruct (delegate_of w p); [apply IH|apply state_of_push_progress].
Qed.

Lemma values_of_progress_at fuel w p f q :
  values_of (progress_at fuel w p f) q = values_of w q.
Proof.
  revert p. induction fuel as [|k IH]; intros p; simpl; [done|].
  destruct (delegate_of w p); [apply IH|apply values_of_push_progress].
Qed.

Lemma deferred_of_progress_at fuel w p f q :
  deferred_of (progress_at fuel w p f) q = deferred_of w q.
Proof.
  revert p. induction fuel as [|k IH]; intros p; simpl; [done|].
  destruct (delegate_of w p); [apply IH|apply deferred_of_push_progress].
Qed.

Lemma delegate_of_progress_at fuel w p f q :
  delegate_of (progress_at fuel w p f) q = delegate_of w q.
Proof.
  revert p. induction fuel as [|k IH]; intros p; simpl; [done|].
  destruct (delegate_of w p); [apply IH|apply delegate_of_push_progress].
Qed.

Lemma timers_progress_at fuel w p f : timers (progress_at fuel w p f) = timers w.
Proof.
  revert p. induction fuel as [|k IH]; intros p; simpl; [done|].
  by destruct (delegate_of w p).
Qed.

Lemma length_progress_at fuel w p f :
  length (promises (progress_at fuel w p f)) = length (promises w).
Proof.
  revert p. induction fuel as [|k IH]; intros p; simpl; [done|].
  destruct (delegate_of w p); [apply IH|apply length_update_promise].
Qed.

(** ** [then] *)

Lemma then_unfold w p onF onR onP :
  then_ w p onF onR onP =
  (let cb := {| onFulfilled := onF; onRejected := onR;
                newPromise := length (promises w) |} in
   match onP with
   | Some f => progress (then_registered w p cb) p f
   | None => then_registered w p cb
   end,
   length (promises w)).
Proof. done. Qed.

Lemma then_snd w p onF onR onP :
  snd (then_ w p onF onR onP) = length (promises w).
Proof. done. Qed.

Lemma state_of_pinkySwear_old dlg w q :
  q < length (promises w) →
  state_of (fst (pinkySwear dlg w)) q = state_of w q.
Proof. intros Hq. unfold state_of. by rewrite promises_pinkySwear_old. Qed.

Lemma values_of_pinkySwear_old dlg w q :
  q < length (promises w) →
  values_of (fst (pinkySwear dlg w)) q = values_of w q.
Proof. intros Hq. unfold values_of. by rewrite promises_pinkySwear_old. Qed.

Lemma deferred_of_pinkySwear_old dlg w q :
  q < length (promises w) →
  deferred_of (fst (pinkySwear dlg w)) q = deferred_of w q.
Proof. intros Hq. unfold deferred_of. by rewrite promises_pinkySwear_old. Qed.

Lemma delegate_of_pinkySwear_old dlg w q :
  q < length (promises w) →
  delegate_of (fst (pinkySwear dlg w)) q = delegate_of w q.
Proof. intros Hq. unfold delegate_of. by rewrite promises_pinkySwear_old. Qed.

Lemma progress_fns_of_pinkySwear_old dlg w q :
  q < length (promises w) →
  progress_fns_of (fst (pinkySwear dlg w)) q = progress_fns_of w q.
Proof. intros Hq. unfold progress_fns_of. by rewrite promises_pinkySwear_old. Qed.

Lemma state_of_then_registered w p cb q :
  q < length (promises w) →
  state_of (then_registered w p cb) q = state_of w q.
Proof.
  intros Hq. unfold then_registered.
  destruct (state_of (fst (pinkySwear (Some p) w)) p).
  - by apply (state_of_pinkySwear_old (Some p)).
  - rewrite state_of_push_deferred. by apply (state_of_pinkySwear_old (Some p)).
Qed.

Lemma values_of_then_registered w p cb q :
  q < length (promises w) →
  values_of (then_registered w p cb) q = values_of w q.
Proof.
  intros Hq. unfold then_registered.
  destruct (state_of (fst (pinkySwear (Some p) w)) p).
  - by apply (values_of_pinkySwear_old (Some p)).
  - rewrite values_of_push_deferred. by apply (values_of_pinkySwear_old (Some p)).
Qed.

Lemma progress_fns_of_then_registered w p cb q :
  q < length (promises w) →
  progress_fns_of (then_registered w p cb) q = progress_fns_of w q.
Proof.
  intros Hq. unfold then_registered.
  destruct (state_of (fst (pinkySwear (Some p) w)) p).
  - by apply (progress_fns_of_pinkySwear_old (Some p)).
  - rewrite progress_fns_of_push_deferred.
    by apply (progress_fns_of_pinkySwear_old (Some p)).
Qed.

Lemma length_then_registered w p cb :
  length (promises (then_registered w p cb)) = S (length (promises w)).
Proof.
  unfold then_registered.
  destruct (state_of (fst (pinkySwear (Some p) w)) p).
  - apply (length_pinkySwear (Some p)).
  - rewrite length_update_promise. apply (length_pinkySwear (Some p)).
Qed.

Lemma timers_then_registered w p cb :
  p < length (promises w) →
  timers (then_registered w p cb) =
  match state_of w p with
  | Some _ => timers w ++ [TCallCallbacks p cb]
  | None => timers w
  end.
Proof.
  intros Hp. unfold then_registered.
  rewrite (state_of_pinkySwear_old (Some p)) by done.
  by destruct (state_of w p).
Qed.

Lemma deferred_of_then_registered w p cb :
  p < length (promises w) →
  deferred_of (then_registered w p cb) p =
  match state_of w p with
  | Some _ => deferred_of w p
  | None => deferred_of w p ++ [cb]
  end.
Proof.
  intros Hp. unfold then_registered.
  rewrite (state_of_pinkySwear_old (Some p)) by done.
  destruct (state_of w p).
  - by apply (deferred_of_pinkySwear_old (Some p)).
  - rewrite deferred_of_push_deferred_eq
      by (rewrite (length_pinkySwear (Some p)); lia).
    by rewrite (deferred_of_pinkySwear_old (Some p)).
Qed.

Lemma deferred_of_then_registered_ne w p cb q :
  q ≠ p → q < length (promises w) →
  deferred_of (then_registered w p cb) q = deferred_of w q.
Proof.
  intros Hne Hq. unfold then_registered.
  destruct (state_of (fst (pinkySwear (Some p) w)) p).
  - by apply (deferred_of_pinkySwear_old (Some p)).
  - rewrite deferred_of_push_deferred_ne by done.
    by apply (deferred_of_pinkySwear_old (Some p)).
Qed.

Lemma promises_then_registered_new w p cb :
  p < length (promises w) →
  promises (then_registered w p cb) !! length (promises w)
  = Some (pending_promise (Some p)).
Proof.
  intros Hp. unfold then_registered.
  destruct (state_of (fst (pinkySwear (Some p) w)) p).
  - apply (promises_pinkySwear_new (Some p)).
  - rewrite promises_update_promise_ne by lia.
    apply (promises_pinkySwear_new (Some p)).
Qed.

Lemma delegate_of_then_registered w p cb q :
  q < length (promises w) →
  delegate_of (then_registered w p cb) q = delegate_of w q.
Proof.
  intros Hq. unfold then_registered.
  destruct (state_of (fst (pinkySwear (Some p) w)) p).
  - by apply (delegate_of_pinkySwear_old (Some p)).
  - rewrite delegate_of_push_deferred.
    by apply (delegate_of_pinkySwear_old (Some p)).
Qed.

Lemma evolves_then_registered w p cb : evolves w (then_registered w p cb).
Proof.
  unfold then_registered.
  eapply evolves_trans; [apply (evolves_pinkySwear (Some p))|].
  destruct (state_of (fst (pinkySwear (Some p) w)) p) eqn:Hs;
    [apply evolves_defer|].
  apply evolves_update_promise. intros pr Hpr.
  unfold state_of in Hs. rewrite Hpr in Hs.
  split; [done|]. split; [|split].
  - rewrite Hs. by intros [? ?].
  - by exists [cb].
  - simpl. intros fns ->. exists []. by rewrite app_nil_r.
Qed.

(** [then] settles nothing, ... *)
Lemma state_of_then w p onF onR onP q :
  q < length (promises w) →
  state_of (fst (then_ w p onF onR onP)) q = state_of w q.
Proof.
  intros Hq. rewrite then_unfold. cbn [fst].
  destruct onP; [unfold progress; rewrite state_of_progress_at|];
    by apply state_of_then_registered.
Qed.

Lemma values_of_then w p onF onR onP q :
  q < length (promises w) →
  values_of (fst (then_ w p onF onR onP)) q = values_of w q.
Proof.
  intros Hq. rewrite then_unfold. cbn [fst].
  destruct onP; [unfold progress; rewrite values_of_progress_at|];
    by apply values_of_then_registered.
Qed.

(** ... registers [callCallbacks] with the timers or with [deferred],
    according to the state it finds, ... *)
Lemma timers_then w p onF onR onP :
  p < length (promises w) →
  timers (fst (then_ w p onF onR onP)) =
  match state_of w p with
  | Some _ =>
      timers w ++
      [TCallCallbacks p {| onFulfilled := onF; onRejected := onR;
                           newPromise := length (promises w) |}]
  | None => timers w
  end.
Proof.
  intros Hp. rewrite then_unfold. cbn [fst].
  destruct onP; [unfold progress; rewrite timers_progress_at|];
    by apply timers_then_registered.
Qed.

Lemma deferred_of_then w p onF onR onP :
  p < length (promises w) →
  deferred_of (fst (then_ w p onF onR onP)) p =
  match state_of w p with
  | Some _ => deferred_of w p
  | None =>
      deferred_of w p ++
      [{| onFulfilled := onF; onRejected := onR;
          newPromise := length (promises w) |}]
  end.
Proof.
  intros Hp. rewrite then_unfold. cbn [fst].
  destruct onP; [unfold progress; rewrite deferred_of_progress_at|];
    by apply deferred_of_then_registered.
Qed.

Lemma deferred_of_then_ne w p onF onR onP q :
  q ≠ p → q < length (promises w) →
  deferred_of (fst (then_ w p onF onR onP)) q = deferred_of w q.
Proof.
  intros Hne Hq. rewrite then_unfold. cbn [fst].
  destruct onP; [unfold progress; rewrite deferred_of_progress_at|];
    by apply deferred_of_then_registered_ne.
Qed.

(** ... and makes a pending promise that forwards to [p]. *)
Lemma delegate_of_then_new w p onF onR onP :
  p < length (promises w) →
  delegate_of (fst (then_ w p onF onR onP)) (length (promises w)) = Some p.
Proof.
  intros Hp. rewrite then_unfold. cbn [fst].
  destruct onP; [unfold progress; rewrite delegate_of_progress_at|];
    unfold delegate_of; by rewrite promises_then_registered_new.
Qed.


Lemma deferred_of_then_new w p onF onR onP :
  p < length (promises w) →
  deferred_of (fst (then_ w p onF onR onP)) (length (promises w)) = [].
Proof.
  intros Hp. rewrite then_unfold. cbn [fst].
  destruct onP; [unfold progress; rewrite deferred_of_progress_at|];
    unfold deferred_of; by rewrite promises_then_registered_new.
Qed.

Lemma delegate_of_then w p onF onR onP q :
  q < length (promises w) →
  delegate_of (fst (then_ w p onF onR onP)) q = delegate_of w q.
Proof.
  intros Hq. rewrite then_unfold. cbn [fst].
  destruct onP; [unfold progress; rewrite delegate_of_progress_at|];
    by apply delegate_of_then_registered.
Qed.

Lemma length_then w p onF onR onP :
  length (promises (fst (then_ w p onF onR onP))) = S (length (promises w)).
Proof.
  rewrite then_unfold. cbn [fst].
  destruct onP; [unfold progress; rewrite length_progress_at|];
    apply length_then_registered.
Qed.

(** The subscription made by [then(_, _, onProgress)] lands on the promise
    the chain of [p] ends in. *)
Lemma subscribers_then w n p r onF onR f :
  climbs w n p r → n ≤ length (promises w) →
  subscribers (fst (then_ w p onF onR (Some f))) r = subscribers w r ++ [f].
Proof.
  intros Hc Hn. rewrite then_unfold. cbn [fst].
  set (cb := {| onFulfilled := onF; onRejected := onR;
                newPromise := length (promises w) |}).
  assert (r < length (promises w)) as Hr by (by eapply climbs_valid).
  rewrite (progress_climbs _ n p r).
  - rewrite subscribers_push_progress by (rewrite length_then_registered; lia).
    unfold subscribers. by rewrite progress_fns_of_then_registered.
  - eapply persists_climbs; [|exact Hc].
    apply evolves_persists, evolves_then_registered.
  - rewrite length_then_registered. lia.
Qed.

Lemma subscribers_then_none w p r onF onR :
  r < length (promises w) →
  subscribers (fst (then_ w p onF onR None)) r = subscribers w r.
Proof.
  intros Hr. rewrite then_unfold. cbn [fst]. unfold subscribers.
  by rewrite progress_fns_of_then_registered.
Qed.


(** ** [set] *)

Lemma set_settled w p b newState newValues :
  state_of w p = Some b → set w p newState newValues = w.
Proof. intros Hs. unfold set. by rewrite Hs. Qed.

Lemma set_pending_eq w p newState newValues :
  state_of w p = None →
  set w p newState newValues =
  defer (TRunDeferred p) (update_promise p (assign newState newValues) w).
Proof. intros Hs. unfold set. by rewrite Hs. Qed.

(** The first [set] on a pending promise is the one that counts. *)
Lemma set_pending w p newState newValues :
  p < length (promises w) → state_of w p = None →
  state_of (set w p newState newValues) p = newState
  ∧ values_of (set w p newState newValues) p = newValues
  ∧ deferred_of (set w p newState newValues) p = deferred_of w p
  ∧ timers (set w p newState newValues) = timers w ++ [TRunDeferred p].
Proof.
  intros Hlt Hs. rewrite set_pending_eq by done.
  destruct (lookup_lt_is_Some_2 _ _ Hlt) as [pr Hpr].
  unfold state_of, values_of, deferred_of. simpl.
  by rewrite list_lookup_alter_eq, Hpr.
Qed.

Lemma state_of_set_ne w p s vs q :
  q ≠ p → state_of (set w p s vs) q = state_of w q.
Proof.
  intros Hne. unfold set. destruct (state_of w p); [done|].
  unfold state_of. simpl. by rewrite list_lookup_alter_ne.
Qed.

Lemma deferred_of_set w p s vs q :
  deferred_of (set w p s vs) q = deferred_of w q.
Proof.
  unfold set. destruct (state_of w p); [done|].
  apply (deferred_of_assign p s vs w q).
Qed.

Lemma delegate_of_set w p s vs q :
  delegate_of (set w p s vs) q = delegate_of w q.
Proof.
  unfold set. destruct (state_of w p); [done|].
  apply (delegate_of_assign p s vs w q).
Qed.

Lemma progress_fns_of_set w p s vs q :
  progress_fns_of (set w p s vs) q = progress_fns_of w q.
Proof.
  unfold set. destruct (state_of w p); [done|].
  apply (progress_fns_of_assign p s vs w q).
Qed.

Lemma length_set w p s vs :
  length (promises (set w p s vs)) = length (promises w).
Proof.
  unfold set. destruct (state_of w p); [done|]. simpl. by rewrite length_alter.
Qed.

Lemma progress_fns_of_then_ne w n p r onF onR onP q :
  climbs w n p r → n ≤ length (promises w) →
  q < length (promises w) → q ≠ r →
  progress_fns_of (fst (then_ w p onF onR onP)) q = progress_fns_of w q.
Proof.
  intros Hc Hn Hq Hne. rewrite then_unfold. cbn [fst].
  set (cb := {| onFulfilled := onF; onRejected := onR;
                newPromise := length (promises w) |}).
  destruct onP as [f|]; [|by apply progress_fns_of_then_registered].
  rewrite (progress_climbs _ n p r).
  - rewrite progress_fns_of_push_progress_ne by done.
    by apply progress_fns_of_then_registered.
  - eapply persists_climbs; [|exact Hc].
    apply evolves_persists, evolves_then_registered.
  - rewrite length_then_registered. lia.
Qed.

Lemma subscribers_then_opt w n p r onF onR onP :
  climbs w n p r → n ≤ length (promises w) →
  subscribers (fst (then_ w p onF onR onP)) r
  = subscribers w r ++ option_list onP.
Proof.
  intros Hc Hn. destruct onP as [f|]; simpl.
  - by apply (subscribers_then w n).
  - rewrite app_nil_r. apply subscribers_then_none. by eapply climbs_valid.
Qed.


(** * Calls and turns *)

Lemma silent_refl w : silent w w.
Proof. done. Qed.

Lemma silent_trans w1 w2 w3 : silent w1 w2 → silent w2 w3 → silent w1 w3.
Proof. intros [H1 G1] [H2 G2]. split; congruence. Qed.

Lemma promise_only_silent w w' : promise_only w w' → silent w w'.
Proof. by intros ->. Qed.

Lemma silent_set w p s vs : silent w (set w p s vs).
Proof. apply promise_only_silent, promise_only_set. Qed.

Lemma silent_then w p onF onR onP : silent w (fst (then_ w p onF onR onP)).
Proof. apply promise_only_silent, promise_only_then. Qed.

Lemma silent_progress w p f : silent w (progress w p f).
Proof. apply promise_only_silent, promise_only_progress_at. Qed.

Lemma silent_notify w p v : silent w (notify w p v).
Proof. apply promise_only_silent, promise_only_notify_at. Qed.

Section Silence.

Variable host : Host.

Lemma silent_save w f : silent w (save w f).
Proof. unfold save. by destruct (files w !! f). Qed.

Lemma silent_expired w f inv : silent w (fst (expired host w f inv)).
Proof.
  unfold expired. destruct inv; [|done]. cbn [fst].
  eapply silent_trans; [|apply silent_save]. done.
Qed.

Lemma silent_expunge w f : silent w (expunge w f).
Proof. unfold expunge. by destruct (files w !! f). Qed.

Lemma silent_dispatchNextTask w : silent w (dispatchNextTask host w).
Proof.
  unfold dispatchNextTask. case_bool_decide; [|done].
  destruct (dispatch_queue w) as [|task rest]; [done|].
  eapply silent_trans; [|apply silent_set]. done.
Qed.

Lemma silent_attachCallbacks args w p : silent w (fst (attachCallbacks args w p)).
Proof. apply promise_only_silent, promise_only_attachCallbacks. Qed.

Global Instance silent_preorder : PreOrder silent.
Proof. split; [exact silent_refl|exact silent_trans]. Qed.

Lemma silent_download w args : silent w (fst (download host w args)).
Proof.
  apply (download_preserves host silent).
  - done.
  - done.
  - done.
  - done.
  - intros v d. apply (promise_only_silent _ _ (promise_only_pinkySwear d v)).
  - apply silent_set.
  - apply silent_then.
  - done.
  - done.
Qed.

Lemma silent_pruneStaleCache w force : silent w (pruneStaleCache host w force).
Proof.
  unfold pruneStaleCache.
  generalize (map fst (map_to_list (metadata w))). intros keys.
  revert w. induction keys as [|i keys IH]; intros w; simpl; [done|].
  eapply silent_trans; [|apply IH].
  match goal with |- context [if ?c then _ else _] => destruct c end; [|done].
  eapply silent_trans; [|apply silent_expunge]. done.
Qed.

(** Calls are made when a timer fires, and carry the turn that begins
    then. *)
Lemma tick_calls w :
  turn w ≤ turn (tick host w)
  ∧ turn (tick host w) ≤ S (turn w)
  ∧ ∃ calls, log (tick host w) = log w ++ calls
      ∧ Forall (λ c, call_turn c = S (turn w)) calls.
Proof.
  unfold tick. destruct (timers w) as [|t rest].
  { split; [lia|]. split; [lia|]. exists []. by rewrite app_nil_r. }
  destruct (evolves_run_task host (with_turn (S (turn w)) (with_timers rest w)) t)
    as (_ & Ht & (calls & Hl & Hc) & _).
  rewrite Ht. simpl. split; [lia|]. split; [lia|]. by exists calls.
Qed.

Lemma later_calls_refl w : later_calls w w.
Proof. split; [done|]. exists []. by rewrite app_nil_r. Qed.

Lemma later_calls_silent_l w1 w2 w3 :
  silent w1 w2 → later_calls w2 w3 → later_calls w1 w3.
Proof.
  intros [Hl Ht] (Hle & calls & Hlog & Hc). rewrite Hl, Ht in *.
  split; [done|]. by exists calls.
Qed.

Lemma later_calls_trans w1 w2 w3 :
  later_calls w1 w2 → later_calls w2 w3 → later_calls w1 w3.
Proof.
  intros (Hle1 & c1 & Hl1 & Hc1) (Hle2 & c2 & Hl2 & Hc2).
  split; [lia|]. exists (c1 ++ c2). split; [by rewrite Hl2, Hl1, app_assoc|].
  apply Forall_app. split.
  - eapply Forall_impl; [exact Hc1|]. simpl. intros c ?. lia.
  - eapply Forall_impl; [exact Hc2|]. simpl. intros c ?. lia.
Qed.

Lemma silent_later_calls w w' : silent w w' → later_calls w w'.
Proof.
  intros [Hl Ht]. split; [lia|]. exists []. by rewrite app_nil_r.
Qed.

Lemma later_calls_http_onload w c e : later_calls w (http_onload w c e).
Proof.
  unfold http_onload. destruct (http w !! c) as [hc|]; [|apply later_calls_refl].
  destruct (hc_done hc); [apply later_calls_refl|].
  destruct (silent_set (with_turn (S (turn w)) (mark_done c w)) (hc_promise hc)
              (Some true) [e]) as [Hl Ht].
  unfold resolve. split; [rewrite Ht; simpl; lia|].
  exists []. by rewrite Hl, app_nil_r.
Qed.

Lemma later_calls_http_onerror w c e : later_calls w (http_onerror w c e).
Proof.
  unfold http_onerror. destruct (http w !! c) as [hc|]; [|apply later_calls_refl].
  destruct (hc_done hc); [apply later_calls_refl|].
  destruct (silent_set (with_turn (S (turn w)) (mark_done c w)) (hc_promise hc)
              (Some false) [e]) as [Hl Ht].
  unfold reject. split; [rewrite Ht; simpl; lia|].
  exists []. by rewrite Hl, app_nil_r.
Qed.

Lemma later_calls_http_ondatastream w c e : later_calls w (http_ondatastream w c e).
Proof.
  unfold http_ondatastream. destruct (http w !! c) as [hc|]; [|apply later_calls_refl].
  destruct (hc_done hc); [apply later_calls_refl|].
  destruct (silent_notify (with_turn (S (turn w)) w) (hc_promise hc) e) as [Hl Ht].
  split; [rewrite Ht; simpl; lia|].
  exists []. by rewrite Hl, app_nil_r.
Qed.

Lemma later_calls_tick w : later_calls w (tick host w).
Proof.
  unfold tick. destruct (timers w) as [|t rest]; [apply later_calls_refl|].
  destruct (evolves_run_task host (with_turn (S (turn w)) (with_timers rest w)) t)
    as (_ & Ht & (calls & Hl & Hc) & _).
  split; [rewrite Ht; simpl; lia|].
  exists calls. split; [done|]. rewrite Ht.
  eapply Forall_impl; [exact Hc|]. simpl. intros c ->. lia.
Qed.

Lemma later_calls_step w w' : step host w w' → later_calls w w'.
Proof.
  destruct 1.
  - apply silent_later_calls, silent_download.
  - apply silent_later_calls, silent_then.
  - apply silent_later_calls, silent_progress.
  - apply silent_later_calls, silent_expired.
  - apply silent_later_calls, silent_pruneStaleCache.
  - apply later_calls_tick.
  - apply later_calls_http_onload.
  - apply later_calls_http_onerror.
  - apply later_calls_http_ondatastream.
  - by apply silent_later_calls.
  - by apply silent_later_calls.
  - by apply silent_later_calls.
Qed.

Lemma later_calls_steps w w' : rtc (step host) w w' → later_calls w w'.
Proof.
  induction 1 as [|w1 w2 w3 H12 _ IH]; [apply later_calls_refl|].
  eapply later_calls_trans; [by apply later_calls_step|exact IH].
Qed.

End Silence.

(** * The loops of the event loop *)

Section Loops.

Variable host : Host.

Lemma callCallbacks_chosen w p cb :
  callCallbacks host w p cb =
  match chosen (state_of w p) cb with
  | Some fn =>
      match apply_fn host w fn (values_of w p) with
      | (w1, Return (VPromise r)) =>
          fst (then_ w1 r
                 (Some (FnAdoptFulfil (newPromise cb)))
                 (Some (FnAdoptReject (newPromise cb)))
                 (Some (FnAdoptNotify (newPromise cb))))
      | (w1, Return r) => set w1 (newPromise cb) (Some true) [r]
      | (w1, Throw e) => set w1 (newPromise cb) (Some false) [e]
      end
  | None => set w (newPromise cb) (state_of w p) (values_of w p)
  end.
Proof. done. Qed.

Lemma callCallbacks_complete w p cb fn :
  chosen (state_of w p) cb = Some fn →
  callCallbacks host w p cb =
  complete (fst (apply_fn host w fn (values_of w p))) (newPromise cb)
    (snd (apply_fn host w fn (values_of w p))).
Proof.
  intros Hch. rewrite callCallbacks_chosen, Hch.
  destruct (apply_fn host w fn (values_of w p)) as [w1 [r|e]]; [|done].
  by destruct r.
Qed.

Lemma silent_complete w1 np out : silent w1 (complete w1 np out).
Proof.
  destruct out as [r|e]; [|apply silent_set].
  destruct r; try apply silent_set. apply silent_then.
Qed.

(** The call of a consumer's handler is logged with the values of the
    promise, and nothing else is. *)
Lemma callCallbacks_user_log w p cb name body :
  chosen (state_of w p) cb = Some (FnUser name body) →
  log (callCallbacks host w p cb) =
  log w ++ [{| call_turn := turn w; call_fn := name;
               call_args := values_of w p |}].
Proof.
  intros Hch. rewrite (callCallbacks_complete w p cb _ Hch).
  by destruct (silent_complete (fst (apply_fn host w (FnUser name body) (values_of w p)))
              (newPromise cb)
              (snd (apply_fn host w (FnUser name body) (values_of w p))))
    as [-> _].
Qed.

(** On a settled promise the loop over [deferred] is a fold over the list
    as it is when the loop starts. *)
Lemma run_deferred_settled fuel w p b i :
  state_of w p = Some b →
  length (deferred_of w p) - i < fuel →
  run_deferred host fuel w p i =
  foldl (λ w cb, callCallbacks host w p cb) w (drop i (deferred_of w p)).
Proof.
  revert w i. induction fuel as [|k IH]; intros w i Hs Hfuel; [lia|].
  simpl. destruct (deferred_of w p !! i) as [cb|] eqn:Hi.
  - rewrite (drop_S _ _ _ Hi). simpl.
    pose proof (evolves_persists _ _ (evolves_callCallbacks host w p cb)) as Hper.
    destruct (persists_settled _ _ p b Hper Hs) as (Hs' & _ & Hd').
    apply lookup_lt_Some in Hi.
    rewrite IH by (rewrite ?Hd'; done || lia). by rewrite Hd'.
  - apply lookup_ge_None in Hi. by rewrite drop_ge.
Qed.

Lemma foldl_callCallbacks_evolves w p l :
  evolves w (foldl (λ w cb, callCallbacks host w p cb) w l).
Proof.
  revert w. induction l as [|cb l IH]; intros w; simpl; [apply evolves_refl|].
  eapply evolves_trans; [apply evolves_callCallbacks|apply IH].
Qed.

(** Every callback of the list is called, with the values the promise was
    settled with. *)
Lemma foldl_callCallbacks_calls w p b l cb name body :
  state_of w p = Some b →
  cb ∈ l →
  chosen (Some b) cb = Some (FnUser name body) →
  {| call_turn := turn w; call_fn := name; call_args := values_of w p |}
  ∈ log (foldl (λ w cb, callCallbacks host w p cb) w l).
Proof.
  revert w. induction l as [|cb' l IH]; intros w Hs Hin Hch.
  { by apply elem_of_nil in Hin. }
  simpl.
  pose proof (evolves_callCallbacks host w p cb') as Hev.
  destruct (persists_settled _ _ p b (evolves_persists _ _ Hev) Hs)
    as (Hs' & Hv' & _).
  apply elem_of_cons in Hin as [->|Hin].
  - destruct (foldl_callCallbacks_evolves (callCallbacks host w p cb') p l)
      as (_ & _ & (calls & -> & _) & _).
    apply elem_of_app. left.
    rewrite (callCallbacks_user_log w p cb' name body) by (by rewrite Hs).
    apply elem_of_app. right. by apply list_elem_of_singleton.
  - destruct Hev as (_ & Ht & _).
    rewrite <- Ht, <- Hv'. by apply IH.
Qed.

(** ** Timers fire in the order they were set *)

Lemma tick_cons w t rest :
  timers w = t :: rest →
  tick host w = run_task host (with_turn (S (turn w)) (with_timers rest w)) t.
Proof. intros Ht. unfold tick. by rewrite Ht. Qed.

Lemma tick_timers w t rest :
  timers w = t :: rest →
  ∃ more, timers (tick host w) = rest ++ more.
Proof.
  intros Ht. rewrite (tick_cons w t rest Ht).
  destruct (evolves_run_task host (with_turn (S (turn w)) (with_timers rest w)) t)
    as (_ & _ & _ & [more Hmore] & _).
  by exists more.
Qed.

Lemma tick_turn w t rest :
  timers w = t :: rest → turn (tick host w) = S (turn w).
Proof.
  intros Ht. rewrite (tick_cons w t rest Ht).
  by destruct (evolves_run_task host (with_turn (S (turn w)) (with_timers rest w)) t)
    as (_ & -> & _).
Qed.

Lemma ticks_fifo n w :
  n ≤ length (timers w) →
  (∃ more, timers (ticks host n w) = drop n (timers w) ++ more)
  ∧ persists w (ticks host n w)
  ∧ turn (ticks host n w) = turn w + n.
Proof.
  revert w. induction n as [|n IH]; intros w Hn.
  { simpl. split; [exists []; by rewrite app_nil_r|].
    split; [apply persists_refl|lia]. }
  destruct (timers w) as [|t rest] eqn:Ht; [simpl in Hn; lia|].
  simpl in Hn.
  destruct (tick_timers w t rest Ht) as [more1 Hmore1].
  destruct (IH (tick host w)) as ((more & Hmore) & Hper & Hturn).
  { rewrite Hmore1, length_app. lia. }
  cbn [ticks]. split; [|split].
  - rewrite Hmore, Hmore1. simpl.
    rewrite drop_app_le by lia. rewrite <- app_assoc. by eexists.
  - eapply persists_trans; [apply persists_tick|exact Hper].
  - rewrite Hturn, (tick_turn w t rest Ht). lia.
Qed.

Lemma ticks_S n w : ticks host (S n) w = tick host (ticks host n w).
Proof.
  revert w. induction n as [|n IH]; intros w; [done|].
  change (ticks host (S (S n)) w) with (ticks host (S n) (tick host w)).
  by rewrite IH.
Qed.

(** A task at the end of the queue is at its front once the tasks before it
    have run. *)
Lemma ticks_reach w t :
  ∃ more,
    timers (ticks host (length (timers w)) (defer t w)) = t :: more
    ∧ persists w (ticks host (length (timers w)) (defer t w))
    ∧ turn (ticks host (length (timers w)) (defer t w))
      = turn w + length (timers w).
Proof.
  destruct (ticks_fifo (length (timers w)) (defer t w))
    as ((more & Hmore) & Hper & Hturn).
  { simpl. rewrite length_app. lia. }
  exists more. split; [|split].
  - rewrite Hmore. simpl. by rewrite drop_app_length.
  - eapply persists_trans; [|exact Hper].
    apply evolves_persists, evolves_defer.
  - exact Hturn.
Qed.

End Loops.

(** * The promise primitive *)

Section Future.

Variable host : Host.

(** C5.  On a settled promise a further call of [set] changes nothing at
    all, and whatever the module and its consumers do afterwards the promise
    keeps the state and the values it was settled with: the transition out of
    pending happens at most once. *)
Theorem settle_is_single_assignment w p b :
  state_of w p = Some b →
  (∀ newState newValues, set w p newState newValues = w)
  ∧ (∀ w', rtc (step host) w w' →
       state_of w' p = Some b ∧ values_of w' p = values_of w p).
Proof.
  intros Hs. split.
  - intros newState newValues. by eapply set_settled.
  - intros w' Hsteps.
    destruct (persists_settled w w' p b) as (E1 & E2 & _); auto.
    by apply (persists_steps host).
Qed.

(** C9.  When the handler [callCallbacks] picks is a consumer's function
    and throws [e], the promise [then] returned is rejected with exactly
    [[e]]; [callCallbacks] itself completes, so the loop that runs the
    deferred callbacks goes on with the next one. *)
Theorem throwing_handler_rejects_derived_promise w p cb b name body e :
  state_of w p = Some b →
  chosen (Some b) cb = Some (FnUser name body) →
  body (values_of w p) = Throw e →
  newPromise cb < length (promises w) →
  state_of w (newPromise cb) = None →
  let w' := callCallbacks host w p cb in
  state_of w' (newPromise cb) = Some false
  ∧ values_of w' (newPromise cb) = [e]
  ∧ log w' = log w ++ [{| call_turn := turn w; call_fn := name;
                           call_args := values_of w p |}]
  ∧ timers w' = timers w ++ [TRunDeferred (newPromise cb)]
  ∧ (∀ fuel i, deferred_of w p !! i = Some cb →
       run_deferred host (S fuel) w p i = run_deferred host fuel w' p (S i)).
Proof.
  intros Hs Hch Hthrow Hlt Hpending w'.
  assert (w' = set (fst (apply_fn host w (FnUser name body) (values_of w p)))
                 (newPromise cb) (Some false) [e]) as Hw'.
  { subst w'. rewrite (callCallbacks_complete host w p cb (FnUser name body))
      by (by rewrite Hs).
    cbn [apply_fn fst snd]. by rewrite Hthrow. }
  cbn [apply_fn fst] in Hw'.
  set (w1 := with_log _ w) in Hw'.
  destruct (set_pending w1 (newPromise cb) (Some false) [e]) as (E1 & E2 & _ & E4);
    [done|done|].
  rewrite Hw'. split; [done|]. split; [done|]. split; [|split; [done|]].
  - by destruct (silent_set w1 (newPromise cb) (Some false) [e]) as [-> _].
  - intros fuel i Hi. simpl. by rewrite Hi, <- Hw'.
Qed.

(** C6.  [then] calls nothing: it leaves [callCallbacks] with the timers
    (promise settled) or in [deferred] (promise pending), and [set] leaves
    the deferred callbacks with the timers.  So every call made after the
    attachment, or after the settlement, carries a later turn; and the
    handler is called: in the turn that comes when the timers already waiting
    have fired. *)
Theorem continuations_run_in_a_later_turn w p onF onR onP :
  p < length (promises w) →
  let w1 := fst (then_ w p onF onR onP) in
  let cb := {| onFulfilled := onF; onRejected := onR;
               newPromise := length (promises w) |} in
  (∀ w2, rtc (step host) w1 w2 → later_calls w w2)
  ∧ (∀ s vs w2, rtc (step host) (set w p s vs) w2 → later_calls w w2)
  ∧ (∀ b name body,
       state_of w p = Some b →
       chosen (Some b) cb = Some (FnUser name body) →
       let n := length (timers w) in
       log (ticks host (S n) w1) =
       log (ticks host n w1) ++
       [{| call_turn := turn w + n + 1; call_fn := name;
           call_args := values_of w p |}])
  ∧ (∀ v b vs name body,
       rtc (step host) w1 v →
       state_of v p = None →
       chosen (Some b) cb = Some (FnUser name body) →
       let n := length (timers v) in
       {| call_turn := turn v + n + 1; call_fn := name; call_args := vs |}
       ∈ log (ticks host (S n) (set v p (Some b) vs))).
Proof.
  intros Hp w1 cb. split; [|split; [|split]].
  - intros w2 Hsteps.
    eapply later_calls_silent_l; [apply silent_then|].
    by apply (later_calls_steps host).
  - intros s vs w2 Hsteps.
    eapply later_calls_silent_l; [apply silent_set|].
    by apply (later_calls_steps host).
  - intros b name body Hs Hch n.
    assert (w1 = defer (TCallCallbacks p cb) (with_timers (timers w) w1)) as Hw1.
    { pose proof (timers_then w p onF onR onP Hp) as Ht. rewrite Hs in Ht.
      fold w1 in Ht. fold cb in Ht.
      unfold defer. simpl. rewrite <- Ht. by destruct w1. }
    set (w0 := with_timers (timers w) w1) in Hw1.
    destruct (ticks_reach host w0 (TCallCallbacks p cb))
      as (more & Htimers & Hper & Hturn).
    rewrite <- Hw1 in Htimers, Hper, Hturn.
    change (length (timers w0)) with n in *.
    rewrite ticks_S. set (v := ticks host n w1) in *.
    rewrite (tick_cons host v _ _ Htimers). cbn [run_task].
    assert (state_of w0 p = Some b ∧ values_of w0 p = values_of w p) as [Hs0 Hv0].
    { unfold state_of, values_of. simpl.
      change (promises w1 !! p) with (promises (fst (then_ w p onF onR onP)) !! p).
      pose proof (state_of_then w p onF onR onP p Hp) as E1.
      pose proof (values_of_then w p onF onR onP p Hp) as E2.
      unfold state_of, values_of in E1, E2. by rewrite E1, E2. }
    destruct (persists_settled _ _ p b Hper Hs0) as (Hsv & Hvv & _).
    rewrite callCallbacks_user_log with (name := name) (body := body).
    + simpl. do 3 f_equal.
      * change (turn w0) with (turn w1) in Hturn.
        destruct (silent_then w p onF onR onP) as [_ Ht]. fold w1 in Ht. lia.
      * change (values_of v p = values_of w p). congruence.
    + change (chosen (state_of v p) cb = Some (FnUser name body)).
      by rewrite Hsv.
  - intros v b vs name body Hsteps Hs Hch n.
    pose proof (persists_steps host _ _ Hsteps) as Hper1.
    assert (p < length (promises v)) as Hpv.
    { pose proof (persists_length _ _ Hper1) as Hlen.
      unfold w1 in Hlen. rewrite length_then in Hlen. lia. }
    assert (cb ∈ deferred_of v p) as Hin.
    { assert (state_of w p = None) as Hsw.
      { destruct (state_of w p) as [b0|] eqn:Hsw; [|done].
        assert (state_of w1 p = Some b0) as Hs1
          by (unfold w1; by rewrite state_of_then).
        destruct (persists_settled _ _ p b0 Hper1 Hs1) as (Hsv & _). congruence. }
      pose proof (deferred_of_then w p onF onR onP Hp) as Hd.
      rewrite Hsw in Hd. fold w1 cb in Hd.
      unfold deferred_of in Hd |- *.
      destruct (promises w1 !! p) as [pr|] eqn:Hpr.
      - destruct Hper1 as [Hper1 _].
        destruct (Hper1 _ _ Hpr) as (pr' & -> & _ & _ & [k Hk] & _).
        rewrite Hk, Hd. apply elem_of_app. left. apply elem_of_app. right.
        by apply list_elem_of_singleton.
      - apply lookup_ge_None in Hpr. unfold w1 in Hpr.
        rewrite length_then in Hpr. lia. }
    rewrite set_pending_eq by done.
    set (v0 := update_promise p (assign (Some b) vs) v).
    destruct (ticks_reach host v0 (TRunDeferred p))
      as (more & Htimers & Hper & Hturn).
    change (length (timers v0)) with n in *.
    rewrite ticks_S. set (x := ticks host n (defer (TRunDeferred p) v0)) in *.
    rewrite (tick_cons host x _ _ Htimers). cbn [run_task].
    destruct (lookup_lt_is_Some_2 _ _ Hpv) as [pr Hpr].
    assert (state_of v0 p = Some b ∧ values_of v0 p = vs
            ∧ deferred_of v0 p = deferred_of v p) as (Hs0 & Hv0 & Hd0).
    { unfold state_of, values_of, deferred_of, v0.
      by rewrite promises_update_promise_eq, Hpr. }
    destruct (persists_settled _ _ p b Hper Hs0) as (Hsx & Hvx & Hdx).
    set (x' := with_turn (S (turn x)) (with_timers more x)).
    assert (state_of x' p = Some b) as Hsx' by exact Hsx.
    rewrite (run_deferred_settled host _ x' p b 0 Hsx') by lia.
    rewrite drop_0.
    replace (turn v + n + 1) with (turn x') by (simpl; change (turn v0) with (turn v) in Hturn; lia).
    replace vs with (values_of x' p) by (change (values_of x p = vs); congruence).
    apply foldl_callCallbacks_calls with (b := b) (cb := cb) (body := body);
      [done| |done].
    change (cb ∈ deferred_of x p). by rewrite Hdx, Hd0.
Qed.

End Future.

(** * The four cases of [download] *)

Lemma with_promises_with_promises ps ps' w :
  with_promises ps (with_promises ps' w) = with_promises ps w.
Proof. done. Qed.

(** Two worlds with the same fields are the same world. *)
Lemma world_ext (a b : World) :
  clock a = clock b → online a = online b →
  disk_writable a = disk_writable b → disk a = disk b →
  properties a = properties b → metadata a = metadata b →
  files a = files b → promises a = promises b →
  dispatch_queue a = dispatch_queue b → pending_tasks a = pending_tasks b →
  timers a = timers b → http a = http b → turn a = turn b → log a = log b →
  a = b.
Proof. destruct a, b. simpl. by intros -> -> -> -> -> -> -> -> -> -> -> -> -> ->. Qed.

(** [then] on the promise made last. *)
Lemma then_on_last w ps pr onF onR :
  promises w = ps ++ [pr] → state pr = None →
  then_ w (length ps) onF onR None =
  (with_promises
     (ps ++ [push_deferred {| onFulfilled := onF; onRejected := onR;
                              newPromise := S (length ps) |} pr;
             pending_promise (Some (length ps))]) w,
   S (length ps)).
Proof.
  intros Hps Hs. rewrite then_unfold.
  assert (length (promises w) = S (length ps)) as Hlen
    by (rewrite Hps, length_app; simpl; lia).
  rewrite Hlen. f_equal.
  unfold then_registered. cbn [pinkySwear fst].
  assert (state_of (with_promises (promises w ++ [pending_promise (Some (length ps))]) w)
            (length ps) = None) as ->.
  { unfold state_of. simpl. rewrite Hps, <- app_assoc. simpl.
    by rewrite list_lookup_middle. }
  unfold update_promise. cbn [promises with_promises].
  rewrite with_promises_with_promises. f_equal.
  rewrite Hps, <- app_assoc.
  rewrite alter_app_r_alt by lia. by rewrite Nat.sub_diag.
Qed.

Lemma promises_save w f : promises (save w f) = promises w.
Proof. unfold save. by destruct (files w !! f). Qed.

Section Download.

Variable host : Host.

(** The test [file.is_cached && !file.expired()] on the new [File]. *)
Lemma fresh_test w i :
  match files (fst (File_new i w)) !! length (files w) with
  | Some this =>
      is_cached this
      && negb (snd (expired host (fst (File_new i w)) (length (files w)) false))
  | None => false
  end = true
  ↔ cached_and_fresh host w i.
Proof.
  unfold expired. simpl. rewrite list_lookup_middle by done.
  unfold File_constructor, cached_and_fresh, on_disk.
  destruct (metadata w !! i) as [cd|]; simpl.
  - rewrite andb_true_iff, negb_true_iff, bool_decide_eq_true, bool_decide_eq_false.
    split.
    + intros [Hd He]. by exists cd.
    + intros (cd' & [= <-] & Hd & He). done.
  - split; [done|]. by intros (cd & ? & _).
Qed.

(** In flight: join. *)
Lemma download_inflight w args inflight :
  pending_tasks w !! idFromUrl host (url args) = Some inflight →
  download host w args =
  attachCallbacks args (fst (File_new (idFromUrl host (url args)) w)) inflight.
Proof.
  intros Hp. unfold download, fromURL. cbn [File_new].
  change (pending_tasks (with_files _ w)) with (pending_tasks w).
  by rewrite Hp.
Qed.

(** Fresh cache hit. *)
Lemma download_cached w args :
  pending_tasks w !! idFromUrl host (url args) = None →
  cached_and_fresh host w (idFromUrl host (url args)) →
  download host w args =
  attachCallbacks args (cache_hit_world host w args) (length (promises w)).
Proof.
  intros Hp Hfresh. apply fresh_test in Hfresh.
  unfold download, fromURL, cache_hit_world, File_new in *. cbn [fst snd] in *.
  change (pending_tasks (with_files _ w)) with (pending_tasks w).
  rewrite Hp, Hfresh. cbn [pinkySwear]. f_equal.
  by rewrite promises_save.
Qed.

(** Offline. *)
Lemma download_offline w args :
  pending_tasks w !! idFromUrl host (url args) = None →
  ¬ cached_and_fresh host w (idFromUrl host (url args)) →
  online w = false →
  download host w args =
  attachCallbacks args (offline_world host w args) (length (promises w)).
Proof.
  intros Hp Hfresh Hoff. rewrite <- fresh_test in Hfresh.
  apply not_true_is_false in Hfresh.
  unfold download, fromURL, offline_world, File_new in *. cbn [fst snd] in *.
  change (pending_tasks (with_files _ w)) with (pending_tasks w).
  rewrite Hp, Hfresh.
  change (online (with_files _ w)) with (online w). by rewrite Hoff.
Qed.

(** Fetch required: ticket, chain of [then]s, entry in [pending_tasks]. *)
Lemma download_fetch w args :
  fetch_required host w (idFromUrl host (url args)) →
  download host w args =
  attachCallbacks args (dispatchNextTask host (fetch_world host w args))
    (length (promises w) + 4).
Proof.
  intros (Hp & Hfresh & Hon). rewrite <- fresh_test in Hfresh.
  apply not_true_is_false in Hfresh.
  unfold download, fromURL, File_new in *. cbn [fst snd] in *.
  change (pending_tasks (with_files _ w)) with (pending_tasks w).
  rewrite Hp. rewrite Hfresh.
  change (online (with_files _ w)) with (online w). rewrite Hon. cbn [negb].
  unfold requestDispatch, get, fin. cbn [pinkySwear].
  set (n := length (promises w)). set (file := length (files w)).
  set (u := url args).
  set (w0 := with_files _ w).
  change (promises w0) with (promises w). change (dispatch_queue w0) with (dispatch_queue w).
  fold n.
  set (w1 := with_dispatch_queue _ _).
  (* the ticket *)
  rewrite (then_on_last w1 (promises w) (pending_promise None)) by done.
  fold n.
  set (t := push_deferred _ (pending_promise None)).
  (* source *)
  match goal with |- context [with_promises ?ps w1] => set (w2 := with_promises ps w1) end.
  assert (S n = length (promises w ++ [t])) as E1 by (rewrite length_app; simpl; lia).
  rewrite E1.
  rewrite (then_on_last w2 (promises w ++ [t]) (pending_promise (Some n)))
    by (done || (simpl; by rewrite <- app_assoc)).
  rewrite <- E1.
  set (p1 := push_deferred _ (pending_promise (Some n))).
  match goal with |- context [with_promises ?ps w2] => set (w3 := with_promises ps w2) end.
  assert (S (S n) = length ((promises w ++ [t]) ++ [p1])) as E2
    by (rewrite !length_app; simpl; lia).
  rewrite E2.
  rewrite (then_on_last w3 ((promises w ++ [t]) ++ [p1]) (pending_promise (Some (S n))))
    by (done || (simpl; by rewrite <- !app_assoc)).
  rewrite <- E2.
  set (p2 := push_deferred _ (pending_promise (Some (S n)))).
  match goal with |- context [with_promises ?ps w3] => set (w4 := with_promises ps w3) end.
  assert (S (S (S n)) = length (((promises w ++ [t]) ++ [p1]) ++ [p2])) as E3
    by (rewrite !length_app; simpl; lia).
  rewrite E3.
  rewrite (then_on_last w4 (((promises w ++ [t]) ++ [p1]) ++ [p2])
             (pending_promise (Some (S (S n)))))
    by (done || (simpl; by rewrite <- !app_assoc)).
  rewrite <- E3.
  set (p3 := push_deferred _ (pending_promise (Some (S (S n))))).
  match goal with |- context [with_promises ?ps w4] => set (w5 := with_promises ps w4) end.
  assert (S (S (S (S n))) = length ((((promises w ++ [t]) ++ [p1]) ++ [p2]) ++ [p3])) as E4
    by (rewrite !length_app; simpl; lia).
  rewrite E4.
  rewrite (then_on_last w5 ((((promises w ++ [t]) ++ [p1]) ++ [p2]) ++ [p3])
             (pending_promise (Some (S (S (S n))))))
    by (done || (simpl; by rewrite <- !app_assoc)).
  rewrite <- E4.
  cbn [fst snd].
  replace (n + 4) with (S (S (S (S n)))) by lia.
  f_equal. f_equal.
  unfold fetch_world. fold n file u.
  subst w5 w4 w3 w2 w1 w0. unfold fetch_world. fold n file u.
  apply world_ext; try reflexivity.
  - unfold update_file.
    cbn [files with_files with_promises with_dispatch_queue with_pending_tasks].
    unfold file. rewrite alter_app_r_alt by lia. by rewrite Nat.sub_diag.
  - unfold update_file.
    cbn [promises with_files with_promises with_dispatch_queue with_pending_tasks].
    rewrite <- !app_assoc. cbn [app]. unfold pipeline, t, p1, p2, p3.
    unfold cb_spawn, cb_source, cb_responseData, cb_write, cb_cleanup.
    replace (n + 1) with (S n) by lia.
    replace (n + 2) with (S (S n)) by lia.
    replace (n + 3) with (S (S (S n))) by lia.
    replace (n + 4) with (S (S (S (S n)))) by lia.
    replace (n + 5) with (S (S (S (S (S n))))) by lia.
    reflexivity.
  - unfold update_file.
    cbn [pending_tasks with_files with_promises with_dispatch_queue with_pending_tasks].
    by replace (n + 4) with (S (S (S (S n)))) by lia.
Qed.

End Download.

(** * Cache entries *)

Section Cache.

Variable host : Host.

Lemma id_File_constructor i w : id (File_constructor i w) = i.
Proof. unfold File_constructor. by destruct (metadata w !! i). Qed.

Lemma attachCallbacks_plain args w p :
  ¬ has_callbacks args → attachCallbacks args w p = (w, p).
Proof.
  intros Hno. unfold attachCallbacks.
  by rewrite bool_decide_eq_false_2.
Qed.

Lemma attachCallbacks_then args w p :
  has_callbacks args →
  attachCallbacks args w p =
  then_ w p (onload args) (onerror args) (ondatastream args).
Proof.
  intros Hcb. unfold attachCallbacks.
  by rewrite bool_decide_eq_true_2.
Qed.

(** [save()] on an object of the store. *)
Lemma save_effect w f this :
  files w !! f = Some this →
  files (save w f) = alter (with_is_cached true) f (files w)
  ∧ metadata (save w f) =
    <[id this := {| md_last_used_at := last_used_at this; md_md5 := md5 this |}]>
      (metadata w)
  ∧ properties (save w f) = metadata (save w f)
  ∧ disk (save w f) = disk w
  ∧ promises (save w f) = promises w
  ∧ timers (save w f) = timers w
  ∧ http (save w f) = http w
  ∧ dispatch_queue (save w f) = dispatch_queue w
  ∧ pending_tasks (save w f) = pending_tasks w
  ∧ clock (save w f) = clock w.
Proof. intros Hf. unfold save. rewrite Hf. repeat split; reflexivity. Qed.

(** C10.  [expired(true)] on any [File], cached or not, sets
    [last_used_at] to [0] and calls [save()], which writes the record
    [{last_used_at: 0, md5}] under the file's key into [metadata], stores
    [metadata] in the property store and sets [is_cached]; the disk is not
    looked at. *)
Theorem invalidation_registers_the_entry w f this :
  files w !! f = Some this →
  let w' := fst (expired host w f true) in
  files w' !! f = Some (with_is_cached true (with_last_used_at 0 this))
  ∧ metadata w' =
    <[id this := {| md_last_used_at := 0; md_md5 := md5 this |}]> (metadata w)
  ∧ properties w' = metadata w'
  ∧ disk w' = disk w
  ∧ snd (expired host w f true)
    = bool_decide (EXPIRATION_TIME host < clock w)%Z.
Proof.
  intros Hf. unfold expired. cbn [fst snd].
  set (w0 := update_file f (with_last_used_at 0) w).
  assert (files w0 !! f = Some (with_last_used_at 0 this)) as Hf0.
  { unfold w0, update_file. cbn [files with_files].
    by rewrite list_lookup_alter_eq, Hf. }
  destruct (save_effect w0 f _ Hf0) as (Ef & Em & Ep & Ed & _ & _ & _ & _ & _ & Ec).
  assert (files (save w0 f) !! f
          = Some (with_is_cached true (with_last_used_at 0 this))) as Hf1.
  { by rewrite Ef, list_lookup_alter_eq, Hf0. }
  split; [done|]. split; [by rewrite Em|]. split; [done|]. split; [by rewrite Ed|].
  rewrite Hf1, Ec. cbn [last_used_at with_is_cached with_last_used_at].
  change (clock w0) with (clock w). by rewrite Z.sub_0_r.
Qed.


End Cache.

(** * The world of a fetch *)

Section Fetch.

Variable host : Host.

(** ** [dispatchNextTask] *)

(** The admission test is on the number of waiting tickets. *)
Lemma dispatchNextTask_resolves_front w task rest :
  dispatch_queue w = task :: rest →
  (Z.of_nat (length (task :: rest)) < MAX_ASYNC_TASKS host)%Z →
  dispatchNextTask host w = resolve (with_dispatch_queue rest w) task VUndef.
Proof.
  intros Hq Hlt. unfold dispatchNextTask. rewrite Hq.
  by rewrite bool_decide_eq_true_2.
Qed.

Lemma dispatchNextTask_full w :
  ¬ (Z.of_nat (length (dispatch_queue w)) < MAX_ASYNC_TASKS host)%Z →
  dispatchNextTask host w = w.
Proof.
  intros Hge. unfold dispatchNextTask. by rewrite bool_decide_eq_false_2.
Qed.

Lemma dispatchNextTask_empty w :
  dispatch_queue w = [] → dispatchNextTask host w = w.
Proof.
  intros Hq. unfold dispatchNextTask. rewrite Hq. by case_bool_decide.
Qed.

(** What [dispatchNextTask] leaves alone. *)
Lemma dispatchNextTask_frame w :
  pending_tasks (dispatchNextTask host w) = pending_tasks w
  ∧ files (dispatchNextTask host w) = files w
  ∧ http (dispatchNextTask host w) = http w
  ∧ metadata (dispatchNextTask host w) = metadata w
  ∧ properties (dispatchNextTask host w) = properties w
  ∧ log (dispatchNextTask host w) = log w
  ∧ turn (dispatchNextTask host w) = turn w
  ∧ length (promises (dispatchNextTask host w)) = length (promises w).
Proof.
  unfold dispatchNextTask. case_bool_decide; [|done].
  destruct (dispatch_queue w) as [|task rest]; [done|].
  unfold resolve. pose proof (promise_only_set (with_dispatch_queue rest w) task
                                (Some true) [VUndef]) as Hpo.
  rewrite (promise_only_pending_tasks _ _ Hpo), (promise_only_files _ _ Hpo),
    (promise_only_http _ _ Hpo), (promise_only_metadata _ _ Hpo),
    (promise_only_properties _ _ Hpo), (promise_only_log _ _ Hpo),
    (promise_only_turn _ _ Hpo), length_set.
  done.
Qed.

(** A promise that is not a waiting ticket is not touched. *)
Lemma dispatchNextTask_promises w q :
  q ∉ dispatch_queue w →
  promises (dispatchNextTask host w) !! q = promises w !! q.
Proof.
  intros Hq. unfold dispatchNextTask. case_bool_decide; [|done].
  destruct (dispatch_queue w) as [|task rest]; [done|].
  unfold resolve, set.
  destruct (state_of (with_dispatch_queue rest w) task); [done|].
  simpl. rewrite list_lookup_alter_ne; [done|].
  intros ->. apply Hq. by left.
Qed.

Lemma dispatchNextTask_deferred w q :
  deferred_of (dispatchNextTask host w) q = deferred_of w q.
Proof.
  unfold dispatchNextTask. case_bool_decide; [|done].
  destruct (dispatch_queue w) as [|task rest]; [done|].
  unfold resolve. by rewrite deferred_of_set.
Qed.

Lemma dispatchNextTask_delegate w q :
  delegate_of (dispatchNextTask host w) q = delegate_of w q.
Proof.
  unfold dispatchNextTask. case_bool_decide; [|done].
  destruct (dispatch_queue w) as [|task rest]; [done|].
  unfold resolve. by rewrite delegate_of_set.
Qed.

Lemma dispatchNextTask_progress_fns w q :
  progress_fns_of (dispatchNextTask host w) q = progress_fns_of w q.
Proof.
  unfold dispatchNextTask. case_bool_decide; [|done].
  destruct (dispatch_queue w) as [|task rest]; [done|].
  unfold resolve. by rewrite progress_fns_of_set.
Qed.

(** ** The world [download] builds for a fetch *)

Lemma fetch_world_promises w args j :
  promises (fetch_world host w args) !! (length (promises w) + j)
  = pipeline (length (promises w)) (url args) (length (files w)) !! j.
Proof. unfold fetch_world. simpl. apply lookup_app_at. Qed.

Lemma fetch_world_old w args q :
  q < length (promises w) →
  promises (fetch_world host w args) !! q = promises w !! q.
Proof. intros Hq. unfold fetch_world. simpl. by rewrite lookup_app_l. Qed.

Lemma fetch_world_length w args :
  length (promises (fetch_world host w args)) = length (promises w) + 6.
Proof. unfold fetch_world. simpl. rewrite length_app. done. Qed.

Lemma fetch_world_climbs w args :
  climbs (fetch_world host w args) 4 (length (promises w) + 4) (length (promises w)).
Proof.
  set (n := length (promises w)).
  assert (∀ j pr, pipeline n (url args) (length (files w)) !! j = Some pr →
            delegate_of (fetch_world host w args) (n + j) = delegate pr) as Hd.
  { intros j pr Hj. unfold delegate_of. subst n.
    by rewrite fetch_world_promises, Hj. }
  apply (climbs_hop _ 3 (n + 4) (n + 3) n); [by rewrite (Hd 4 _ eq_refl)|].
  apply (climbs_hop _ 2 (n + 3) (n + 2) n); [by rewrite (Hd 3 _ eq_refl)|].
  apply (climbs_hop _ 1 (n + 2) (n + 1) n); [by rewrite (Hd 2 _ eq_refl)|].
  apply (climbs_hop _ 0 (n + 1) n n); [by rewrite (Hd 1 _ eq_refl)|].
  apply (climbs_here _ n (push_deferred (cb_spawn n (url args))
                            (pending_promise None))); [|done].
  pose proof (fetch_world_promises w args 0) as H0.
  rewrite Nat.add_0_r in H0. exact H0.
Qed.

Lemma fetch_world_file w args :
  files (fetch_world host w args) !! length (files w)
  = Some (with_pending true (File_constructor (idFromUrl host (url args)) w)).
Proof. unfold fetch_world. simpl. by rewrite list_lookup_middle. Qed.

End Fetch.

(** * The entries of [pending_tasks] *)

Section Entries.

Variable host : Host.

(** Only [download] adds an entry: whatever runs when a timer fires can
    but remove some. *)
Lemma entries_apply_fn w f args :
  pending_tasks (fst (apply_fn host w f args)) ⊆ pending_tasks w.
Proof.
  destruct f as [u|prop|u file|file|np|np|np|name body]; cbn [apply_fn].
  - done.
  - done.
  - unfold write. destruct (files w !! file) as [this|]; [|done].
    cbn [fst snd].
    match goal with |- context [if ?c then _ else _] => destruct c end.
    + cbn [fst]. unfold save, updateLastUsedAt.
      match goal with |- context [files ?v !! file] => destruct (files v !! file) end;
        simpl; by destruct (disk_writable w).
    + cbn [fst]. simpl. by destruct (disk_writable w).
  - cbn [fst]. destruct (dispatchNextTask_frame host
      (update_file file (with_pending false)
         match files w !! file with
         | Some this => with_pending_tasks (delete (id this) (pending_tasks w)) w
         | None => w
         end)) as (-> & _).
    simpl. destruct (files w !! file); simpl; [apply delete_subseteq|done].
  - cbn [fst]. by rewrite (promise_only_pending_tasks _ _ (promise_only_set w np _ _)).
  - cbn [fst]. by rewrite (promise_only_pending_tasks _ _ (promise_only_set w np _ _)).
  - cbn [fst]. unfold notify.
    by rewrite (promise_only_pending_tasks _ _ (promise_only_notify_at _ w np _)).
  - done.
Qed.

Lemma entries_complete w1 np out :
  pending_tasks (complete w1 np out) = pending_tasks w1.
Proof.
  destruct out as [r|e].
  - destruct r; cbn [complete];
      try (by rewrite (promise_only_pending_tasks _ _ (promise_only_set w1 np _ _))).
    by rewrite (promise_only_pending_tasks _ _ (promise_only_then w1 _ _ _ _)).
  - cbn [complete].
    by rewrite (promise_only_pending_tasks _ _ (promise_only_set w1 np _ _)).
Qed.

Lemma entries_callCallbacks w p cb :
  pending_tasks (callCallbacks host w p cb) ⊆ pending_tasks w.
Proof.
  destruct (chosen (state_of w p) cb) as [fn|] eqn:Hch.
  - rewrite (callCallbacks_complete host w p cb fn Hch), entries_complete.
    apply entries_apply_fn.
  - rewrite callCallbacks_chosen, Hch.
    by rewrite (promise_only_pending_tasks _ _ (promise_only_set w _ _ _)).
Qed.

Lemma entries_foldl_callCallbacks w p l :
  pending_tasks (foldl (λ w cb, callCallbacks host w p cb) w l) ⊆ pending_tasks w.
Proof.
  revert w. induction l as [|cb l IH]; intros w; simpl; [done|].
  etrans; [apply IH|apply entries_callCallbacks].
Qed.

Lemma entries_run_deferred fuel w p i :
  pending_tasks (run_deferred host fuel w p i) ⊆ pending_tasks w.
Proof.
  revert w i. induction fuel as [|k IH]; intros w i; simpl; [done|].
  destruct (deferred_of w p !! i) as [cb|]; [|done].
  etrans; [apply IH|apply entries_callCallbacks].
Qed.

Lemma entries_run_progress fuel w p i v :
  pending_tasks (run_progress host fuel w p i v) ⊆ pending_tasks w.
Proof.
  revert w i. induction fuel as [|k IH]; intros w i; simpl; [done|].
  destruct (progress_fns_of w p) as [fns|]; [|done].
  destruct (fns !! i) as [fn|]; [|done].
  pose proof (entries_apply_fn w fn [v]) as Ha.
  destruct (apply_fn host w fn [v]) as [w1 [r|e]]; [|done].
  etrans; [apply IH|exact Ha].
Qed.

Lemma entries_tick w : pending_tasks (tick host w) ⊆ pending_tasks w.
Proof.
  unfold tick. destruct (timers w) as [|t rest]; [done|].
  destruct t; cbn [run_task].
  - apply (entries_run_deferred _ (with_turn _ (with_timers rest w))).
  - apply (entries_callCallbacks (with_turn _ (with_timers rest w))).
  - apply (entries_run_progress _ (with_turn _ (with_timers rest w))).
Qed.

End Entries.

(** * A fetch and its cleanup *)

Section Cleanup.

Variable host : Host.

Lemma attachCallbacks_snd args w p :
  snd (attachCallbacks args w p) = p
  ∨ snd (attachCallbacks args w p) = length (promises w).
Proof.
  unfold attachCallbacks. case_bool_decide; [right; apply then_snd|by left].
Qed.

Lemma evolves_cache_hit_world w args : evolves w (cache_hit_world host w args).
Proof.
  unfold cache_hit_world. cbn [File_new pinkySwear].
  eapply evolves_trans; [apply (evolves_File_new (idFromUrl host (url args)))|].
  cbn [File_new fst].
  eapply evolves_trans; [apply evolves_updateLastUsedAt|].
  eapply evolves_trans; [apply evolves_save|].
  eapply evolves_trans; [apply (evolves_pinkySwear None)|].
  apply evolves_set.
Qed.

Lemma evolves_offline_world w args : evolves w (offline_world host w args).
Proof.
  unfold offline_world. cbn [File_new pinkySwear].
  eapply evolves_trans; [apply (evolves_File_new (idFromUrl host (url args)))|].
  cbn [File_new fst].
  eapply evolves_trans; [apply (evolves_pinkySwear None)|].
  apply evolves_set.
Qed.

(** Without an entry in flight, the promise [download] returns is one it
    has just made. *)
Lemma download_makes_promise w args :
  pending_tasks w !! idFromUrl host (url args) = None →
  length (promises w) ≤ snd (download host w args).
Proof.
  intros Hp.
  destruct (match files (fst (File_new (idFromUrl host (url args)) w))
                    !! length (files w) with
            | Some this =>
                is_cached this
                && negb (snd (expired host
                                (fst (File_new (idFromUrl host (url args)) w))
                                (length (files w)) false))
            | None => false
            end) eqn:Htest.
  - apply fresh_test in Htest.
    rewrite (download_cached host w args Hp Htest).
    destruct (attachCallbacks_snd args (cache_hit_world host w args)
                (length (promises w))) as [->| ->]; [done|].
    apply persists_length, evolves_persists, evolves_cache_hit_world.
  - assert (¬ cached_and_fresh host w (idFromUrl host (url args))) as Hno.
    { intros Hc. apply fresh_test in Hc. congruence. }
    destruct (online w) eqn:Hon.
    + rewrite (download_fetch host w args) by done.
      destruct (attachCallbacks_snd args
                  (dispatchNextTask host (fetch_world host w args))
                  (length (promises w) + 4)) as [->| ->]; [lia|].
      destruct (dispatchNextTask_frame host (fetch_world host w args))
        as (_ & _ & _ & _ & _ & _ & _ & ->).
      rewrite fetch_world_length. lia.
    + rewrite (download_offline host w args) by done.
      destruct (attachCallbacks_snd args (offline_world host w args)
                  (length (promises w))) as [->| ->]; [done|].
      apply persists_length, evolves_persists, evolves_offline_world.
Qed.

(** The world [download] returns for a fetch: the entry, the pending
    promise it names, and that promise's deferred callbacks, the [fin] hook
    first. *)
Lemma download_fetch_entry w args :
  let k := idFromUrl host (url args) in
  let n := length (promises w) in
  let file := length (files w) in
  fetch_required host w k → tickets_valid w →
  let w1 := fst (download host w args) in
  let r := snd (download host w args) in
  pending_tasks w1 !! k = Some (n + 4)
  ∧ state_of w1 (n + 4) = None
  ∧ deferred_of w1 (n + 4) =
    cb_cleanup n file ::
    (if decide (has_callbacks args) then [cb_caller args (n + 6)] else [])
  ∧ (if decide (has_callbacks args)
     then r = n + 6 ∧ delegate_of w1 r = Some (n + 4)
     else r = n + 4)
  ∧ (∃ this, files w1 !! file = Some this ∧ id this = k)
  ∧ http w1 = http w
  ∧ n + 6 ≤ length (promises w1).
Proof.
  intros k n file Hfetch Hvalid w1 r. subst w1 r.
  rewrite (download_fetch host w args Hfetch). fold n k.
  set (fw := fetch_world host w args).
  set (dw := dispatchNextTask host fw).
  destruct (dispatchNextTask_frame host fw)
    as (Ept & Ef & Eh & _ & _ & _ & _ & Elen). fold dw in Ept, Ef, Eh, Elen.
  assert (length (promises dw) = n + 6) as Hlen
    by (rewrite Elen; apply fetch_world_length).
  assert (n + 4 ∉ dispatch_queue fw) as Hnotin.
  { unfold fw, fetch_world. simpl. intros Hin.
    apply elem_of_app in Hin as [Hin|Hin].
    - unfold tickets_valid in Hvalid. rewrite Forall_forall in Hvalid.
      apply Hvalid in Hin. fold n in Hin. lia.
    - apply list_elem_of_singleton in Hin. lia. }
  assert (promises dw !! (n + 4)
          = Some (push_deferred (cb_cleanup n file)
                    (pending_promise (Some (n + 3))))) as Hp4.
  { unfold dw. rewrite dispatchNextTask_promises by done.
    unfold fw, n. by rewrite fetch_world_promises. }
  assert (state_of dw (n + 4) = None) as Hs4
    by (unfold state_of; by rewrite Hp4).
  assert (deferred_of dw (n + 4) = [cb_cleanup n file]) as Hd4
    by (unfold deferred_of; by rewrite Hp4).
  pose proof (promise_only_attachCallbacks args dw (n + 4)) as Hpo.
  assert (pending_tasks dw !! k = Some (n + 4)) as Hk.
  { rewrite Ept. unfold fw, fetch_world. simpl. apply lookup_insert_eq. }
  assert (∃ this, files dw !! file = Some this ∧ id this = k) as Hfile.
  { rewrite Ef. unfold fw, file. rewrite fetch_world_file. eexists.
    split; [done|]. simpl. apply id_File_constructor. }
  split; [by rewrite (promise_only_pending_tasks _ _ Hpo)|].
  destruct (decide (has_callbacks args)) as [Hcb|Hno].
  - rewrite (attachCallbacks_then args dw (n + 4) Hcb).
    rewrite then_snd, Hlen.
    split; [rewrite state_of_then by lia; done|].
    split; [rewrite deferred_of_then by lia; by rewrite Hs4, Hd4, Hlen|].
    split; [split; [done|rewrite <- Hlen; apply delegate_of_then_new; lia]|].
    rewrite (attachCallbacks_then args dw (n + 4) Hcb) in Hpo.
    split; [by rewrite (promise_only_files _ _ Hpo)|].
    split; [rewrite (promise_only_http _ _ Hpo), Eh; done|].
    rewrite length_then. lia.
  - rewrite (attachCallbacks_plain args dw (n + 4) Hno). cbn [fst snd].
    split; [done|]. split; [done|]. split; [done|]. split; [done|].
    split; [by rewrite Eh|lia].
Qed.

(** C4, amended.  The [fin] hook is a continuation of the promise
    [download] keeps in [pending_tasks] and hands to its callers: it runs
    once that promise has settled, fulfilled or rejected, in the turn that
    runs its deferred callbacks, and there it runs first.  It removes the
    entry, clears [pending] and calls [dispatchNextTask] before any
    continuation of a caller is called; the key has no entry for the rest of
    that turn, and a later [download] of the key makes a promise of its
    own. *)
Theorem cleanup_runs_first_once_settled w args :
  let k := idFromUrl host (url args) in
  let n := length (promises w) in
  let file := length (files w) in
  let waitingForDownload := n + 4 in
  fetch_required host w k → tickets_valid w →
  let w1 := fst (download host w args) in
  let r := snd (download host w args) in
  pending_tasks w1 !! k = Some waitingForDownload
  ∧ state_of w1 waitingForDownload = None
  ∧ (r = waitingForDownload ∨ delegate_of w1 r = Some waitingForDownload)
  ∧ head (deferred_of w1 waitingForDownload) = Some (cb_cleanup n file)
  ∧ ∀ w2 b rest,
      rtc (step host) w1 w2 →
      state_of w2 waitingForDownload = Some b →
      timers w2 = TRunDeferred waitingForDownload :: rest →
      let released :=
        dispatchNextTask host
          (update_file file (with_pending false)
             (with_pending_tasks (delete k (pending_tasks w2))
                (with_turn (S (turn w2)) (with_timers rest w2)))) in
      let w3 := set released (n + 5) (Some true) [VUndef] in
      tick host w2 =
        foldl (λ v cb, callCallbacks host v waitingForDownload cb) w3
          (tail (deferred_of w2 waitingForDownload))
      ∧ pending_tasks w3 !! k = None
      ∧ log w3 = log w2
      ∧ pending_tasks (tick host w2) !! k = None
      ∧ ∀ args', idFromUrl host (url args') = k →
          length (promises (tick host w2))
          ≤ snd (download host (tick host w2) args').
Proof.
  intros k n file waitingForDownload Hfetch Hvalid w1 r.
  destruct (download_fetch_entry w args Hfetch Hvalid)
    as (Hk & Hs & Hd & Hr & (this & Hfile & Hid) & _ & Hlen).
  fold k n file w1 r in Hk, Hs, Hd, Hr, Hfile, Hlen.
  split; [done|]. split; [done|]. split; [|split].
  { destruct (decide (has_callbacks args)); [right; apply Hr|by left]. }
  { unfold waitingForDownload. by rewrite Hd. }
  intros w2 b rest Hsteps Hs2 Htimers released w3.
  pose proof (persists_steps host _ _ Hsteps) as Hper.
  (* what is left of [w1] in [w2] *)
  assert (∃ more, deferred_of w2 waitingForDownload = cb_cleanup n file :: more)
    as [more Hd2].
  { unfold deferred_of in Hd |- *. unfold waitingForDownload.
    destruct (promises w1 !! (n + 4)) as [pr|] eqn:Hpr; [|done].
    destruct Hper as [Hper _].
    destruct (Hper _ _ Hpr) as (pr' & -> & _ & _ & [m Hm] & _).
    rewrite Hm, Hd. by eexists. }
  assert (∃ this2, files w2 !! file = Some this2 ∧ id this2 = k)
    as (this2 & Hfile2 & Hid2).
  { destruct Hper as [_ Hper].
    destruct (Hper _ _ Hfile) as (this2 & Hf2 & Hi2). exists this2.
    split; [done|by rewrite Hi2]. }
  set (x := with_turn (S (turn w2)) (with_timers rest w2)) in *.
  assert (state_of x waitingForDownload = Some b) as Hsx by exact Hs2.
  assert (callCallbacks host x waitingForDownload (cb_cleanup n file) = w3)
    as Hw3.
  { rewrite (callCallbacks_complete host x _ _ (FnCleanup file))
      by (rewrite Hsx; by destruct b).
    cbn [apply_fn fst snd complete newPromise cb_cleanup].
    change (files x !! file) with (files w2 !! file).
    rewrite Hfile2, Hid2. done. }
  assert (pending_tasks w3 !! k = None) as Hk3.
  { unfold w3. rewrite (promise_only_pending_tasks _ _ (promise_only_set _ _ _ _)).
    unfold released.
    destruct (dispatchNextTask_frame host
                (update_file file (with_pending false)
                   (with_pending_tasks (delete k (pending_tasks w2)) x)))
      as (-> & _).
    simpl. apply lookup_delete_eq. }
  assert (tick host w2 =
          foldl (λ v cb, callCallbacks host v waitingForDownload cb) w3 more)
    as Htick.
  { rewrite (tick_cons host w2 _ _ Htimers). cbn [run_task]. fold x.
    rewrite (run_deferred_settled host _ x waitingForDownload b 0 Hsx) by lia.
    rewrite drop_0.
    change (deferred_of x waitingForDownload) with (deferred_of w2 waitingForDownload).
    rewrite Hd2. simpl. by rewrite Hw3. }
  assert (pending_tasks (tick host w2) !! k = None) as Hk4.
  { rewrite Htick. eapply lookup_weaken_None; [exact Hk3|].
    apply entries_foldl_callCallbacks. }
  split; [by rewrite Hd2|]. split; [done|]. split; [|split; [done|]].
  - unfold w3. rewrite (promise_only_log _ _ (promise_only_set _ _ _ _)).
    unfold released.
    by destruct (dispatchNextTask_frame host
                (update_file file (with_pending false)
                   (with_pending_tasks (delete k (pending_tasks w2)) x)))
      as (_ & _ & _ & _ & _ & -> & _).
  - intros args' Hk'. apply download_makes_promise. by rewrite Hk'.
Qed.

End Cleanup.

(** * Joining a fetch in flight *)

Lemma joined_refl T p v : joined T p [] v v.
Proof.
  split; [apply evolves_refl|]. repeat split; try done.
  by rewrite app_nil_r.
Qed.



(** [then] on a pending promise whose chain ends in [T]. *)
Lemma joined_then v j p T onF onR onP :
  climbs v j p T → j ≤ length (promises v) → state_of v p = None →
  joined T p (option_list onP) v (fst (then_ v p onF onR onP)).
Proof.
  intros Hc Hj Hs.
  assert (p < length (promises v)) as Hp.
  { inversion Hc; subst.
    - by eapply lookup_lt_Some.
    - unfold delegate_of in *.
      destruct (promises v !! p) eqn:E; [by eapply lookup_lt_Some|done]. }
  pose proof (promise_only_then v p onF onR onP) as Hpo.
  split; [apply evolves_then|].
  split; [by apply promise_only_http|].
  split; [by apply promise_only_pending_tasks|].
  split; [by apply promise_only_dispatch_queue|].
  split; [rewrite timers_then by done; by rewrite Hs|].
  split; [by apply promise_only_log|].
  split; [by apply (subscribers_then_opt v j)|].
  split; [|split].
  - intros q Hq Hne. by apply (progress_fns_of_then_ne v j p T).
  - intros q Hq. by rewrite state_of_then, values_of_then.
  - intros q Hq Hne. by apply deferred_of_then_ne.
Qed.

Section Join.

Variable host : Host.

Lemma in_flight_persists n k v v' :
  in_flight n k v → persists v v' →
  pending_tasks v' = pending_tasks v →
  state_of v' (n + 4) = state_of v (n + 4) →
  in_flight n k v'.
Proof.
  intros (Hk & Hs & Hc4 & Hc1 & Hlen) Hper Hpt Hst.
  split; [by rewrite Hpt|]. split; [by rewrite Hst|].
  split; [by eapply persists_climbs|]. split; [by eapply persists_climbs|].
  pose proof (persists_length _ _ Hper). lia.
Qed.





End Join.

(** * The first call and the tick that sends the request *)

Section Spawn.

Variable host : Host.

Lemma tick_quiescent w : timers w = [] → tick host w = w.
Proof. intros Ht. unfold tick. by rewrite Ht. Qed.

Lemma ticks_quiescent m w : timers w = [] → ticks host m w = w.
Proof.
  intros Ht. induction m as [|m IH]; [done|].
  cbn [ticks]. by rewrite tick_quiescent.
Qed.

(** The first [download] of a key, the queue being empty and the limit
    above one: the ticket is resolved at once, whatever is running. *)
Lemma download_dispatched w args :
  let k := idFromUrl host (url args) in
  let n := length (promises w) in
  fetch_required host w k → dispatch_queue w = [] →
  (1 < MAX_ASYNC_TASKS host)%Z →
  let v := fst (download host w args) in
  in_flight n k v
  ∧ joined n (n + 4) (option_list (ondatastream args))
      (dispatchNextTask host (fetch_world host w args)) v
  ∧ http v = http w
  ∧ dispatch_queue v = []
  ∧ timers v = timers w ++ [TRunDeferred n]
  ∧ log v = log w ∧ turn v = turn w
  ∧ state_of v n = Some true
  ∧ values_of v n = [VUndef]
  ∧ deferred_of v n = [cb_spawn n (url args)]
  ∧ subscribers v n = option_list (ondatastream args).
Proof.
  intros k n Hfetch Hq Hmax v. subst v.
  rewrite (download_fetch host w args Hfetch). fold n k.
  set (fw := fetch_world host w args).
  assert (∀ j, promises fw !! (n + j)
               = pipeline n (url args) (length (files w)) !! j) as Hpipe
    by (intros j; apply fetch_world_promises).
  assert (promises fw !! n
          = pipeline n (url args) (length (files w)) !! 0) as Hpipe0
    by (rewrite <- (Hpipe 0); f_equal; lia).
  assert (dispatch_queue fw = [n]) as Hqf
    by (unfold fw, fetch_world; simpl; by rewrite Hq).
  assert (dispatchNextTask host fw
          = set (with_dispatch_queue [] fw) n (Some true) [VUndef]) as Hdw.
  { rewrite (dispatchNextTask_resolves_front host fw n []) by (done || (simpl; lia)).
    done. }
  set (dw := dispatchNextTask host fw) in *.
  set (fw0 := with_dispatch_queue [] fw) in Hdw.
  assert (promises fw0 !! n = Some (push_deferred (cb_spawn n (url args))
                                      (pending_promise None))) as Hn.
  { change (promises fw0) with (promises fw). by rewrite Hpipe0. }
  assert (n < length (promises fw0)) as Hnlt by (by eapply lookup_lt_Some).
  assert (state_of fw0 n = None) as Hsn by (unfold state_of; by rewrite Hn).
  destruct (set_pending fw0 n (Some true) [VUndef] Hnlt Hsn)
    as (Es & Ev & Ed & Et).
  rewrite <- Hdw in Es, Ev, Ed, Et.
  assert (deferred_of dw n = [cb_spawn n (url args)]) as Ed'
    by (rewrite Ed; unfold deferred_of; by rewrite Hn).
  assert (timers dw = timers w ++ [TRunDeferred n]) as Et' by (by rewrite Et).
  assert (evolves fw dw) as Hev by apply evolves_dispatchNextTask.
  assert (climbs dw 4 (n + 4) n) as Hc4.
  { eapply persists_climbs; [by apply evolves_persists|].
    apply fetch_world_climbs. }
  assert (climbs dw 1 (n + 1) n) as Hc1.
  { inversion Hc4 as [|? ? q4 ? Hd4 Hc3]; subst.
    inversion Hc3 as [|? ? q3 ? Hd3 Hc2]; subst.
    inversion Hc2 as [|? ? q2 ? Hd2 Hc1']; subst.
    assert (∀ j pr, pipeline n (url args) (length (files w)) !! j = Some pr →
              delegate_of dw (n + j) = delegate pr) as Hd.
    { intros j pr Hj. unfold dw. rewrite dispatchNextTask_delegate.
      unfold delegate_of. by rewrite Hpipe, Hj. }
    rewrite (Hd 4 _ eq_refl) in Hd4. injection Hd4 as <-.
    rewrite (Hd 3 _ eq_refl) in Hd3. injection Hd3 as <-.
    rewrite (Hd 2 _ eq_refl) in Hd2. injection Hd2 as <-.
    exact Hc1'. }
  destruct (dispatchNextTask_frame host fw)
    as (Ept & Ef & Eh & _ & _ & El & Etn & Elen). fold dw in Ept, Ef, Eh, El, Etn, Elen.
  assert (length (promises dw) = n + 6) as Hlen
    by (rewrite Elen; apply fetch_world_length).
  assert (state_of dw (n + 4) = None) as Hs4.
  { rewrite Hdw, state_of_set_ne by lia.
    unfold state_of. change (promises fw0) with (promises fw).
    by rewrite Hpipe. }
  assert (in_flight n k dw) as Hin.
  { split; [|split; [done|split; [done|split; [done|lia]]]].
    rewrite Ept. unfold fw, fetch_world. simpl. apply lookup_insert_eq. }
  assert (joined n (n + 4) (option_list (ondatastream args)) dw
            (fst (attachCallbacks args dw (n + 4)))) as Hj.
  { unfold attachCallbacks. case_bool_decide as Hcb.
    - apply (joined_then dw 4); [done|lia|done].
    - assert (ondatastream args = None) as ->.
      { destruct (ondatastream args) eqn:E; [|done].
        exfalso. apply Hcb. right. right. by eexists. }
      apply joined_refl. }
  pose proof Hj as (Hevj & Hhj & Hptj & Hqj & Htj & Hlj & Hsj & _ & Hstj & Hdj).
  assert (n < length (promises dw)) as Hndw by lia.
  destruct (Hstj n Hndw) as [Esn Evn].
  split.
  { apply (in_flight_persists n k dw); [done|by apply evolves_persists|done|].
    apply Hstj. lia. }
  split; [done|].
  split; [rewrite Hhj, Eh; unfold fw, fetch_world; done|].
  split; [rewrite Hqj, Hdw;
          by rewrite (promise_only_dispatch_queue _ _ (promise_only_set _ _ _ _))|].
  split; [by rewrite Htj|].
  split; [rewrite Hlj, El; unfold fw, fetch_world; done|].
  split; [destruct Hevj as (_ & -> & _); rewrite Etn; unfold fw, fetch_world; done|].
  split; [by rewrite Esn|]. split; [by rewrite Evn|].
  split; [rewrite Hdj by (done || lia); done|].
  rewrite Hsj. unfold subscribers, dw.
  rewrite dispatchNextTask_progress_fns.
  unfold progress_fns_of. by rewrite Hpipe0.
Qed.


End Spawn.

(** * One fetch per key *)



Section Dedup.

Variable host : Host.




End Dedup.

(** * Progress of a request *)

Section Progress.

Variable host : Host.

(** The loop over subscribers that are consumer functions returning
    normally: each is called, in order, and only the log changes. *)
Lemma run_progress_users fuel v p i e :
  Forall (λ h, returns h [e]) (drop i (subscribers v p)) →
  length (subscribers v p) - i < fuel →
  run_progress host fuel v p i e =
  with_log
    (log v ++ flat_map (λ h, call_of (turn v) h [e]) (drop i (subscribers v p)))
    v.
Proof.
  revert v i. induction fuel as [|fuel IH]; intros v i Hret Hfuel; [lia|].
  cbn [run_progress]. unfold subscribers in *.
  destruct (progress_fns_of v p) as [fns|] eqn:Hfns; cbn [from_option Datatypes.id] in *.
  - destruct (fns !! i) as [h|] eqn:Hi.
    + rewrite (drop_S _ _ _ Hi) in Hret |- *.
      apply Forall_cons in Hret as [Hh Hret].
      destruct h as [| | | | | | |name body]; try done.
      destruct Hh as [r Hr]. cbn [apply_fn]. rewrite Hr.
      set (v1 := with_log _ v).
      assert (progress_fns_of v1 p = Some fns) as Hfns1 by exact Hfns.
      apply lookup_lt_Some in Hi.
      rewrite IH; unfold subscribers; rewrite Hfns1; cbn [from_option Datatypes.id];
        [|done|lia].
      cbn [flat_map call_of]. unfold v1. cbn [log turn with_log].
      rewrite <- !app_assoc. by destruct v.
    + apply lookup_ge_None in Hi. rewrite drop_ge by done.
      cbn [flat_map]. rewrite app_nil_r. by destruct v.
  - rewrite drop_nil. cbn [flat_map]. rewrite app_nil_r. by destruct v.
Qed.





End Progress.

(** * The scenarios, evaluated *)

Lemma requested_world :
  pending_tasks requested !! "md5:http://example.com/image.png" = Some 4
  ∧ timers requested = [TRunDeferred 0]
  ∧ dispatch_queue requested = []
  ∧ http requested = [].
Proof. vm_compute. done. Qed.

Lemma settled_world :
  state_of settled 4 = Some true
  ∧ values_of settled 4 = [VFile 0]
  ∧ pending_tasks settled !! "md5:http://example.com/image.png" = Some 4
  ∧ timers settled = [TRunDeferred 4].
Proof. vm_compute. done. Qed.

Lemma finished_world :
  pending_tasks finished !! "md5:http://example.com/image.png" = None
  ∧ timers finished = []
  ∧ metadata finished !! "md5:http://example.com/image.png"
    = Some {| md_last_used_at := 1000;
              md_md5 := Some "md5:PNG" |}
  ∧ disk finished !! "md5:http://example.com/image.png" = Some "PNG".
Proof. vm_compute. done. Qed.

Lemma rtc_ticks host m w : rtc (step host) w (ticks host m w).
Proof.
  revert w. induction m as [|m IH]; intros w; [done|].
  cbn [ticks]. eapply rtc_l; [apply step_tick|apply IH].
Qed.

Lemma settled_reachable : rtc (step demo_host) requested settled.
Proof.
  eapply rtc_l; [apply step_tick|].
  eapply rtc_l; [apply (step_onload _ _ 0 (load_event "PNG"))|].
  apply rtc_ticks.
Qed.

Lemma start_fetch_required u :
  fetch_required demo_host start (idFromUrl demo_host u).
Proof.
  split; [done|]. split; [|done].
  intros (cd & H & _). change (metadata start) with (∅ : gmap string MetaData) in H.
  by rewrite lookup_empty in H.
Defined.


(** * The limit on simultaneous requests *)

(** C2.  Eleven files are asked for, the limit being the default of ten:
    every ticket is resolved by the [download] that takes it, and after
    eleven ticks eleven requests are outstanding.  [dispatchNextTask]
    compares the number of tickets waiting with the limit; nothing counts
    the requests that run. *)
Theorem limit_does_not_bound_running_requests :
  MAX_ASYNC_TASKS demo_host = 10%Z
  ∧ dispatch_queue (fst (downloads demo_host start eleven)) = []
  ∧ length (outstanding
              (ticks demo_host 11 (fst (downloads demo_host start eleven))))
    = 11.
Proof. vm_compute. done. Qed.

(** With a limit of one the test [dispatch_queue.length < 1] fails for
    every queue that holds a ticket: no request is ever sent. *)
Lemma limit_one_starves :
  MAX_ASYNC_TASKS (host_with_limit 1) = 1%Z
  ∧ dispatch_queue limit_one = [0; 6]
  ∧ ∀ m, http (ticks (host_with_limit 1) m limit_one) = []
         ∧ dispatch_queue (ticks (host_with_limit 1) m limit_one) = [0; 6].
Proof.
  split; [done|]. split; [vm_compute; done|]. intros m.
  rewrite ticks_quiescent by (vm_compute; done). vm_compute. done.
Qed.


(** * The window between settlement and cleanup *)

(** The claim as stated fails: after a plain [download], the tick that
    sends the request, [onload] and five ticks, the promise the caller
    holds is fulfilled and the entry of the key is still in
    [pending_tasks]. *)
Lemma settled_before_cleanup :
  ¬ cleanup_precedes_settlement demo_host start (plain image).
Proof.
  intros H. specialize (H settled settled_reachable).
  assert (pending_tasks settled !! idFromUrl demo_host image = None) as Hk.
  { apply H. exists true. vm_compute. reflexivity. }
  vm_compute in Hk. discriminate.
Qed.


(** * The theorems at the scenarios *)


(** The [fin] hook of the fetch of [image] removes the entry in the tick
    that follows [settled]. *)
Lemma cleanup_runs_first_at_settled :
  fetch_required demo_host start (idFromUrl demo_host image)
  ∧ tickets_valid start
  ∧ pending_tasks (tick demo_host settled) !! idFromUrl demo_host image = None.
Proof.
  assert (tickets_valid start) as Hvalid by constructor.
  split; [apply start_fetch_required|]. split; [exact Hvalid|].
  destruct (cleanup_runs_first_once_settled demo_host start (plain image)
              (start_fetch_required image) Hvalid) as (_ & _ & _ & _ & H).
  destruct (H settled true [] settled_reachable eq_refl eq_refl)
    as (_ & _ & _ & Hgone & _).
  exact Hgone.
Defined.

(** A promise fulfilled with [1] is not rejected afterwards. *)
Lemma settle_is_single_assignment_at_fulfilled_one :
  state_of fulfilled_one 0 = Some true
  ∧ set fulfilled_one 0 (Some false) [VStr "late"] = fulfilled_one.
Proof.
  split; [reflexivity|].
  destruct (settle_is_single_assignment demo_host fulfilled_one 0 true eq_refl)
    as [H _].
  apply H.
Defined.

(** A handler attached to a promise just made. *)
Lemma continuations_run_later_at_new_promise :
  0 < length (promises (fst (pinkySwear None start)))
  ∧ ∀ w2,
      rtc (step demo_host)
        (fst (then_ (fst (pinkySwear None start)) 0
                (Some (observer "done")) None None)) w2 →
      later_calls (fst (pinkySwear None start)) w2.
Proof.
  assert (0 < length (promises (fst (pinkySwear None start)))) as Hp
    by (simpl; lia).
  split; [exact Hp|].
  destruct (continuations_run_in_a_later_turn demo_host
              (fst (pinkySwear None start)) 0 (Some (observer "done")) None None Hp)
    as [H _].
  exact H.
Defined.



(** The handler [boom] throws: the promise [1] that [then] returned is
    rejected with what it threw. *)
Lemma throwing_handler_at_about_to_throw :
  state_of (callCallbacks demo_host about_to_throw 0 about_to_throw_cb) 1
    = Some false
  ∧ values_of (callCallbacks demo_host about_to_throw 0 about_to_throw_cb) 1
    = [VStr "oops"].
Proof.
  assert (1 < length (promises about_to_throw)) as Hlen by (simpl; lia).
  destruct (throwing_handler_rejects_derived_promise demo_host about_to_throw 0
              about_to_throw_cb true "boom" (λ _, Throw (VStr "oops")) (VStr "oops")
              eq_refl eq_refl eq_refl Hlen eq_refl) as (H1 & H2 & _).
  split; [exact H1|exact H2].
Defined.

(** A [File] that was never downloaded is in the metadata once it has been
    invalidated. *)
Lemma invalidation_registers_one_file :
  files one_file !! 0 = Some (File_constructor "md5:a" start)
  ∧ metadata (fst (expired demo_host one_file 0 true)) !! "md5:a"
    = Some {| md_last_used_at := 0; md_md5 := None |}
  ∧ files (fst (expired demo_host one_file 0 true)) !! 0
    = Some {| id := "md5:a"; is_cached := true; last_used_at := 0;
              md5 := None; pending := false; downloaded := false |}.
Proof.
  split; [reflexivity|].
  destruct (invalidation_registers_the_entry demo_host one_file 0
              (File_constructor "md5:a" start) eq_refl) as (Hf & Hm & _).
  split; [|exact Hf].
  rewrite Hm. apply lookup_insert_eq.
Defined.

(** * The [File] class and the metadata *)

(** X1.  What [save()] writes, a later [new File(id)] reads back: the time of
    last use and the digest.  Whether the new object counts as cached is
    decided by the disk, not by the record; [pending] and [downloaded]
    are not kept; no other key is touched. *)
Theorem saved_file_is_read_back w f this :
  files w !! f = Some this →
  let w' := save w f in
  File_constructor (id this) w' =
    {| id := id this; is_cached := on_disk w (id this);
       last_used_at := last_used_at this; md5 := md5 this;
       pending := false; downloaded := false |}
  ∧ files w' !! f = Some (with_is_cached true this)
  ∧ properties w' = metadata w'
  ∧ (∀ j, j ≠ id this → metadata w' !! j = metadata w !! j)
  ∧ disk w' = disk w.
Proof.
  intros Hf w'. destruct (save_effect w f this Hf) as (Ef & Em & Ep & Ed & _).
  subst w'. split.
  - unfold File_constructor, on_disk. by rewrite Em, lookup_insert_eq, Ed.
  - split; [by rewrite Ef, list_lookup_alter_eq, Hf|]. split; [done|].
    split; [|done]. intros j Hj. by rewrite Em, lookup_insert_ne.
Qed.


Section FileClass.

Variable host : Host.

(** X3.  [write(data)] answers whether the file exists afterwards, not whether
    the host wrote it: on a disk that refuses the write it is [true] when an
    older copy is there.  The digest of the object is that of [data] either
    way; the metadata is left to [save()]. *)
Theorem write_reports_existence w f this data :
  files w !! f = Some this →
  let w' := fst (write host w f data) in
  (snd (write host w f data) = true
   ↔ disk_writable w = true ∨ is_Some (disk w !! id this))
  ∧ disk w' =
    (if disk_writable w then <[id this := payload data]> (disk w) else disk w)
  ∧ files w' !! f
    = Some (with_md5 (Some (md5HexDigest host (payload data))) this)
  ∧ metadata w' = metadata w
  ∧ promises w' = promises w.
Proof.
  intros Hf w'. subst w'. unfold write. rewrite Hf. cbn [fst snd].
  assert (∀ v, files v = files w →
            files (update_file f (with_md5 (Some (getMD5 host data))) v) !! f
            = Some (with_md5 (Some (md5HexDigest host (payload data))) this)) as Hfile.
  { intros v Hv. unfold update_file. cbn [files with_files].
    by rewrite list_lookup_alter_eq, Hv, Hf. }
  unfold File_exists.
  destruct (disk_writable w) eqn:Hdw.
  - rewrite Hfile by reflexivity. cbn [id with_md5].
    split; [|done]. unfold on_disk, update_file. cbn [disk with_files with_disk].
    rewrite lookup_insert_eq, bool_decide_eq_true. split; [by left|by eexists].
  - rewrite Hfile by reflexivity. cbn [id with_md5].
    split; [|done]. unfold on_disk, update_file. cbn [disk with_files].
    rewrite bool_decide_eq_true. split; [by right|]. by intros [?|?].
Qed.

(** [expired(true)]: the record it leaves and what it does not touch. *)
Lemma expired_invalidate_effect w f this :
  files w !! f = Some this →
  let w' := fst (expired host w f true) in
  metadata w' =
    <[id this := {| md_last_used_at := 0; md_md5 := md5 this |}]> (metadata w)
  ∧ clock w' = clock w
  ∧ pending_tasks w' = pending_tasks w
  ∧ online w' = online w
  ∧ promises w' = promises w
  ∧ snd (expired host w f true) = bool_decide (EXPIRATION_TIME host < clock w)%Z.
Proof.
  intros Hf. unfold expired. cbn [fst snd].
  set (w0 := update_file f (with_last_used_at 0) w).
  assert (files w0 !! f = Some (with_last_used_at 0 this)) as Hf0.
  { subst w0. unfold update_file. cbn [files with_files].
    by rewrite list_lookup_alter_eq, Hf. }
  destruct (save_effect w0 f _ Hf0) as (Ef & Em & _ & _ & Epr & _ & _ & _ & Ept & Ec).
  split; [by rewrite Em|]. split; [by rewrite Ec|]. split; [by rewrite Ept|].
  split; [unfold save; by rewrite Hf0|]. split; [by rewrite Epr|].
  rewrite Ef, list_lookup_alter_eq, Hf0, Ec.
  cbn [from_option fmap option_fmap option_map last_used_at with_is_cached with_last_used_at].
  change (clock w0) with (clock w). by rewrite Z.sub_0_r.
Qed.

(** X4.  [expired(true)], made when the clock is past the expiration time
    (it counts milliseconds since 1970), leaves the entry expired: the next
    [download] of the key does not take it from the cache but fetches it,
    file on disk or not. *)
Theorem invalidation_forces_a_download w f this args :
  files w !! f = Some this →
  (EXPIRATION_TIME host < clock w)%Z →
  idFromUrl host (url args) = id this →
  let w' := fst (expired host w f true) in
  snd (expired host w f true) = true
  ∧ ¬ cached_and_fresh host w' (id this)
  ∧ (pending_tasks w !! id this = None → online w = true →
     download host w' args =
     attachCallbacks args (dispatchNextTask host (fetch_world host w' args))
       (length (promises w) + 4)).
Proof.
  intros Hf Hclock Hid w'.
  destruct (expired_invalidate_effect w f this Hf)
    as (Hm & Hc & Hp & Ho & Hpr & Hs).
  split; [by rewrite Hs, bool_decide_eq_true|].
  assert (¬ cached_and_fresh host w' (id this)) as Hstale.
  { intros (cd & Hcd & _ & Hfresh). subst w'. rewrite Hm, lookup_insert_eq in Hcd.
    injection Hcd as <-. cbn [md_last_used_at] in Hfresh. rewrite Hc in Hfresh. lia. }
  split; [done|]. intros Hnone Hon.
  replace (length (promises w)) with (length (promises w')) by (by subst w'; rewrite Hpr).
  apply download_fetch. rewrite Hid. split; [|split; [done|]].
  - by subst w'; rewrite Hp.
  - by subst w'; rewrite Ho.
Qed.

End FileClass.

(** * Garbage collection *)

Section GarbageCollection.

Variable host : Host.

(** One round of the loop of [pruneStaleCache] on a key that has a
    record. *)
Lemma pruneStaleCache_round force v i cd :
  metadata v !! i = Some cd →
  let stale :=
    force || bool_decide (EXPIRATION_TIME host < clock v - md_last_used_at cd)%Z in
  let v1 :=
    (let '(w1, file) := File_new i v in
     if force || snd (expired host w1 file false) then expunge w1 file else w1) in
  clock v1 = clock v
  ∧ metadata v1 = (if stale then delete i (metadata v) else metadata v)
  ∧ disk v1 = (if stale then delete i (disk v) else disk v)
  ∧ properties v1 = (if stale then delete i (metadata v) else properties v)
  ∧ promises v1 = promises v ∧ pending_tasks v1 = pending_tasks v
  ∧ timers v1 = timers v ∧ http v1 = http v
  ∧ dispatch_queue v1 = dispatch_queue v.
Proof.
  intros Hcd stale v1. subst stale v1.
  assert (last_used_at (File_constructor i v) = md_last_used_at cd) as Hlast.
  { unfold File_constructor. by rewrite Hcd. }
  unfold File_new, expired. cbn [fst snd files with_files].
  rewrite lookup_app_r, Nat.sub_diag by done. cbn [lookup list_lookup].
  rewrite Hlast. change (clock (with_files _ v)) with (clock v).
  destruct (force || bool_decide _) eqn:Hstale; [|done].
  unfold expunge. cbn [files with_files].
  rewrite lookup_app_r, Nat.sub_diag by done. cbn [lookup list_lookup].
  rewrite id_File_constructor. done.
Qed.

Lemma pruneStaleCache_loop force l :
  ∀ v, NoDup l → (∀ i, i ∈ l → is_Some (metadata v !! i)) →
  let stale cd :=
    force || bool_decide (EXPIRATION_TIME host < clock v - md_last_used_at cd)%Z in
  let r :=
    foldl
      (λ w i,
         let '(w1, file) := File_new i w in
         if force || snd (expired host w1 file false) then expunge w1 file else w1)
      v l in
  clock r = clock v
  ∧ (∀ k, metadata r !! k =
          match metadata v !! k with
          | Some cd => if bool_decide (k ∈ l) && stale cd then None else Some cd
          | None => None
          end)
  ∧ (∀ k, disk r !! k =
          match metadata v !! k with
          | Some cd => if bool_decide (k ∈ l) && stale cd then None else disk v !! k
          | None => disk v !! k
          end)
  ∧ (properties r = metadata r
     ∨ metadata r = metadata v ∧ properties r = properties v)
  ∧ promises r = promises v ∧ pending_tasks r = pending_tasks v
  ∧ timers r = timers v ∧ http r = http v
  ∧ dispatch_queue r = dispatch_queue v.
Proof.
  induction l as [|i l IH]; intros v Hnd Hin stale r.
  - subst r. cbn [foldl]. split; [done|].
    split; [intros k; by destruct (metadata v !! k)|].
    split; [intros k; by destruct (metadata v !! k)|].
    split; [by right|done].
  - apply NoDup_cons in Hnd as [Hi Hnd].
    destruct (Hin i) as [cd Hcd]; [by left|].
    destruct (pruneStaleCache_round force v i cd Hcd)
      as (Ec & Em & Ed & Ep & Epr & Ept & Et & Eh & Eq).
    subst r. cbn [foldl].
    set (v1 := let '(w1, file) := File_new i v in
               if force || snd (expired host w1 file false)
               then expunge w1 file else w1) in *.
    assert (∀ j, j ≠ i → metadata v1 !! j = metadata v !! j) as Hother.
    { intros j Hj. rewrite Em. destruct (force || bool_decide _); [|done].
      by rewrite lookup_delete_ne. }
    assert (∀ j, j ≠ i → disk v1 !! j = disk v !! j) as Hdother.
    { intros j Hj. rewrite Ed. destruct (force || bool_decide _); [|done].
      by rewrite lookup_delete_ne. }
    destruct (IH v1 Hnd) as (Ec' & Em' & Ed' & Ep' & Epr' & Ept' & Et' & Eh' & Eq').
    { intros j Hj. rewrite Hother; [apply Hin; by right|]. intros ->. done. }
    split; [by rewrite Ec', Ec|].
    split.
    { intros k. rewrite Em'. destruct (decide (k = i)) as [->|Hk].
      - rewrite (bool_decide_eq_false_2 (i ∈ l)) by done.
        rewrite (bool_decide_eq_true_2 (i ∈ i :: l)) by (by left).
        rewrite Em, Hcd. subst stale. cbn [andb].
        destruct (force || bool_decide _); [by rewrite lookup_delete_eq|].
        by rewrite Hcd.
      - rewrite Hother by done. rewrite Ec.
        destruct (metadata v !! k); [|done].
        assert (bool_decide (k ∈ i :: l) = bool_decide (k ∈ l)) as ->; [|done].
        apply bool_decide_ext. rewrite elem_of_cons. split; [by intros [?|?]|by right]. }
    split.
    { intros k. rewrite Ed'. destruct (decide (k = i)) as [->|Hk].
      - rewrite (bool_decide_eq_false_2 (i ∈ l)) by done.
        rewrite (bool_decide_eq_true_2 (i ∈ i :: l)) by (by left).
        rewrite Em, Ed, Hcd. subst stale. cbn [andb].
        destruct (force || bool_decide _); [by rewrite !lookup_delete_eq|].
        by rewrite Hcd.
      - rewrite Hother, Hdother by done. rewrite Ec.
        destruct (metadata v !! k); [|done].
        assert (bool_decide (k ∈ i :: l) = bool_decide (k ∈ l)) as ->; [|done].
        apply bool_decide_ext. rewrite elem_of_cons. split; [by intros [?|?]|by right]. }
    split.
    { destruct Ep' as [Ep'|[Em1 Ep1]]; [by left|].
      rewrite Em1, Ep1, Em, Ep.
      destruct (force || bool_decide _); [by left|by right]. }
    by rewrite Epr', Ept', Et', Eh', Eq'.
Qed.

(** X5.  [pruneStaleCache(force)] removes the record and the file of every key
    of the metadata that is expired, of every key when [force] is set, and of
    no other: a record that is not expired stays as it is, and so does a file
    that has no record.  The property store follows the metadata as soon as
    one entry is removed.  Promises, entries in flight, timers and requests
    are not touched. *)
Theorem pruneStaleCache_removes_the_stale_entries w force :
  let w' := pruneStaleCache host w force in
  let stale cd :=
    force || bool_decide (EXPIRATION_TIME host < clock w - md_last_used_at cd)%Z in
  (∀ k, metadata w' !! k =
        match metadata w !! k with
        | Some cd => if stale cd then None else Some cd
        | None => None
        end)
  ∧ (∀ k, disk w' !! k =
          match metadata w !! k with
          | Some cd => if stale cd then None else disk w !! k
          | None => disk w !! k
          end)
  ∧ (properties w' = metadata w'
     ∨ metadata w' = metadata w ∧ properties w' = properties w)
  ∧ promises w' = promises w ∧ pending_tasks w' = pending_tasks w
  ∧ timers w' = timers w ∧ http w' = http w
  ∧ dispatch_queue w' = dispatch_queue w.
Proof.
  intros w' stale. subst w'. unfold pruneStaleCache.
  assert (∀ k, k ∈ map fst (map_to_list (metadata w)) ↔ is_Some (metadata w !! k))
    as Hkeys.
  { intros k. rewrite list_elem_of_fmap. split.
    - intros ([k' cd] & -> & Hin). apply elem_of_map_to_list in Hin. by eexists.
    - intros [cd Hcd]. exists (k, cd). split; [done|]. by apply elem_of_map_to_list. }
  destruct (pruneStaleCache_loop force (map fst (map_to_list (metadata w))) w)
    as (_ & Em & Ed & Ep & Hrest).
  { apply NoDup_fst_map_to_list. }
  { intros i Hi. by apply Hkeys. }
  split.
  { intros k. rewrite Em. destruct (metadata w !! k) as [cd|] eqn:Hcd; [|done].
    rewrite bool_decide_eq_true_2; [done|]. apply Hkeys. by eexists. }
  split; [|done].
  intros k. rewrite Ed. destruct (metadata w !! k) as [cd|] eqn:Hcd; [|done].
  rewrite bool_decide_eq_true_2; [done|]. apply Hkeys. by eexists.
Qed.

End GarbageCollection.

(** * More on the promise primitive *)

Lemma values_of_set_ne w p s vs q :
  q ≠ p → values_of (set w p s vs) q = values_of w q.
Proof.
  intros Hne. unfold set. destruct (state_of w p); [done|].
  unfold values_of. simpl. by rewrite list_lookup_alter_ne.
Qed.

Lemma timers_set w p s vs :
  timers (set w p s vs) =
  match state_of w p with
  | None => timers w ++ [TRunDeferred p]
  | Some _ => timers w
  end.
Proof. unfold set. by destruct (state_of w p). Qed.

Section Settlement.

Variable host : Host.

(** The turn of a [TRunDeferred] timer on a settled promise: the callbacks
    of [deferred], in order. *)
Lemma tick_run_deferred v p b rest :
  timers v = TRunDeferred p :: rest →
  state_of v p = Some b →
  tick host v =
  foldl (λ w cb, callCallbacks host w p cb)
    (with_turn (S (turn v)) (with_timers rest v)) (deferred_of v p).
Proof.
  intros Ht Hs. rewrite (tick_cons host v _ _ Ht). cbn [run_task].
  rewrite (run_deferred_settled host _ _ p b 0); [by rewrite drop_0|done|].
  change (deferred_of (with_turn _ _) p) with (deferred_of v p). lia.
Qed.

(** Only a consumer's function writes to the log. *)
Lemma apply_fn_log w fn args :
  log (fst (apply_fn host w fn args)) = log w ++ call_of (turn w) fn args
  ∧ turn (fst (apply_fn host w fn args)) = turn w.
Proof.
  destruct (evolves_apply_fn host w fn args) as (_ & Ht & _).
  split; [|done].
  destruct fn as [u|prop|u file|file|np|np|np|name body]; cbn [call_of];
    rewrite ?app_nil_r; try done.
  - cbn [apply_fn]. destruct (write host w file (arg0 args)) as [w1 ok] eqn:Hw.
    assert (log w1 = log w) as Hl1.
    { change w1 with (fst (w1, ok)). rewrite <- Hw. unfold write.
      destruct (files w !! file); [|done]. cbn [fst].
      by destruct (disk_writable w). }
    destruct ok; cbn [fst]; [|done].
    destruct (silent_save (updateLastUsedAt (update_file file (with_downloaded true) w1) file)
                file) as [-> _].
    done.
  - cbn [apply_fn fst].
    destruct (silent_dispatchNextTask host
                (update_file file (with_pending false)
                   match files w !! file with
                   | Some this =>
                       with_pending_tasks (delete (id this) (pending_tasks w)) w
                   | None => w
                   end)) as [-> _].
    by destruct (files w !! file).
  - cbn [apply_fn fst]. by destruct (silent_set w np (Some true) [arg0 args]) as [-> _].
  - cbn [apply_fn fst]. by destruct (silent_set w np (Some false) [arg0 args]) as [-> _].
  - cbn [apply_fn fst]. by destruct (silent_notify w np (arg0 args)) as [-> _].
Qed.

Lemma callCallbacks_log w p cb :
  log (callCallbacks host w p cb) =
  log w ++
  match chosen (state_of w p) cb with
  | Some fn => call_of (turn w) fn (values_of w p)
  | None => []
  end.
Proof.
  destruct (chosen (state_of w p) cb) as [fn|] eqn:Hch.
  - rewrite (callCallbacks_complete host w p cb fn Hch).
    destruct (silent_complete (fst (apply_fn host w fn (values_of w p)))
                (newPromise cb) (snd (apply_fn host w fn (values_of w p))))
      as [-> _].
    apply apply_fn_log.
  - rewrite callCallbacks_chosen, Hch, app_nil_r.
    by destruct (silent_set w (newPromise cb) (state_of w p) (values_of w p)) as [-> _].
Qed.

Lemma foldl_callCallbacks_log l :
  ∀ w p b, state_of w p = Some b →
  log (foldl (λ w cb, callCallbacks host w p cb) w l) =
  log w ++
  flat_map
    (λ cb, match chosen (Some b) cb with
           | Some fn => call_of (turn w) fn (values_of w p)
           | None => []
           end) l.
Proof.
  induction l as [|cb l IH]; intros w p b Hs; cbn [foldl flat_map].
  - by rewrite app_nil_r.
  - destruct (evolves_callCallbacks host w p cb) as (Hper & Ht & _).
    destruct (persists_settled _ _ p b Hper Hs) as (Hs' & Hv' & _).
    rewrite (IH _ p b Hs'), callCallbacks_log, Hs, Hv', Ht.
    by rewrite <- app_assoc.
Qed.

(** X6.  All the continuations attached to a promise before it settled run in
    one turn, in the order of their attachment, each with the values of the
    settlement; the handler of a continuation is the one for the state, and a
    continuation that has none calls nothing.  What a handler returns or
    throws does not keep the later ones from being called. *)
Theorem continuations_run_in_order_of_attachment v p b rest :
  timers v = TRunDeferred p :: rest →
  state_of v p = Some b →
  log (tick host v) =
  log v ++
  flat_map
    (λ cb, match chosen (Some b) cb with
           | Some fn => call_of (S (turn v)) fn (values_of v p)
           | None => []
           end) (deferred_of v p).
Proof.
  intros Ht Hs. rewrite (tick_run_deferred v p b rest Ht Hs).
  by rewrite (foldl_callCallbacks_log _ _ p b).
Qed.

(** X7.  When the handler picked is a consumer's function and returns a value
    that is not a promise, the promise [then] returned is fulfilled with that
    value: also when the handler is the one for rejection, so a rejection
    that is handled does not travel on. *)
Theorem returning_handler_fulfils_derived_promise w p cb b name body r :
  state_of w p = Some b →
  chosen (Some b) cb = Some (FnUser name body) →
  body (values_of w p) = Return r →
  (∀ q, r ≠ VPromise q) →
  newPromise cb < length (promises w) →
  state_of w (newPromise cb) = None →
  let w' := callCallbacks host w p cb in
  state_of w' (newPromise cb) = Some true
  ∧ values_of w' (newPromise cb) = [r]
  ∧ log w' = log w ++ [{| call_turn := turn w; call_fn := name;
                           call_args := values_of w p |}]
  ∧ timers w' = timers w ++ [TRunDeferred (newPromise cb)].
Proof.
  intros Hs Hch Hret Hnp Hlt Hpending w'.
  assert (w' = set (fst (apply_fn host w (FnUser name body) (values_of w p)))
                 (newPromise cb) (Some true) [r]) as Hw'.
  { subst w'. rewrite (callCallbacks_complete host w p cb (FnUser name body))
      by (by rewrite Hs).
    cbn [apply_fn fst snd]. rewrite Hret. destruct r; try done. by destruct (Hnp p0). }
  cbn [apply_fn fst] in Hw'.
  set (w1 := with_log _ w) in Hw'.
  destruct (set_pending w1 (newPromise cb) (Some true) [r]) as (E1 & E2 & _ & E4);
    [done|done|].
  rewrite Hw'. split; [done|]. split; [done|]. split; [|done].
  by destruct (silent_set w1 (newPromise cb) (Some true) [r]) as [-> _].
Qed.

(** X8.  A continuation without a handler for the state the promise settled
    in hands the settlement on as it is: same state, same values, all of
    them; nothing is called. *)
Theorem unhandled_settlement_passes_through w p cb b :
  state_of w p = Some b →
  chosen (Some b) cb = None →
  newPromise cb < length (promises w) →
  state_of w (newPromise cb) = None →
  let w' := callCallbacks host w p cb in
  state_of w' (newPromise cb) = Some b
  ∧ values_of w' (newPromise cb) = values_of w p
  ∧ log w' = log w
  ∧ timers w' = timers w ++ [TRunDeferred (newPromise cb)].
Proof.
  intros Hs Hch Hlt Hpending w'. subst w'.
  rewrite callCallbacks_chosen, Hs, Hch.
  destruct (set_pending w (newPromise cb) (Some b) (values_of w p))
    as (E1 & E2 & _ & E4); [done|done|].
  split; [done|]. split; [done|]. split; [|done].
  by destruct (silent_set w (newPromise cb) (Some b) (values_of w p)) as [-> _].
Qed.

End Settlement.

Section Adoption.

Variable host : Host.


(** X9.  When the handler returns a promise [r] that is still pending, the
    promise [then] returned stays pending and takes the settlement of [r]
    when it comes, in the turn after it: the same state, and the first of
    the values. *)
Theorem returned_promise_is_adopted w p cb b name body r :
  state_of w p = Some b →
  chosen (Some b) cb = Some (FnUser name body) →
  body (values_of w p) = Return (VPromise r) →
  r < length (promises w) → state_of w r = None → deferred_of w r = [] →
  timers w = [] →
  newPromise cb < length (promises w) → state_of w (newPromise cb) = None →
  newPromise cb ≠ r →
  let w1 := callCallbacks host w p cb in
  state_of w1 (newPromise cb) = None
  ∧ ∀ s vs,
      let w2 := tick host (set w1 r (Some s) vs) in
      state_of w2 (newPromise cb) = Some s
      ∧ values_of w2 (newPromise cb) = [arg0 vs].
Proof.
  intros Hs Hch Hret Hr Hrs Hrd Ht Hnp Hnps Hne w1.
  set (np := newPromise cb) in *.
  set (wl := with_log
               (log w ++ [{| call_turn := turn w; call_fn := name;
                             call_args := values_of w p |}]) w).
  set (cbA := {| onFulfilled := Some (FnAdoptFulfil np);
                 onRejected := Some (FnAdoptReject np);
                 newPromise := length (promises w) |}).
  assert (w1 = fst (then_ wl r (Some (FnAdoptFulfil np)) (Some (FnAdoptReject np))
                      (Some (FnAdoptNotify np)))) as Hw1.
  { subst w1. rewrite (callCallbacks_complete host w p cb (FnUser name body))
      by (by rewrite Hs).
    cbn [apply_fn fst snd]. by rewrite Hret. }
  assert (length (promises wl) = length (promises w)) as Hlen by done.
  assert (state_of w1 np = None) as Hnp1.
  { rewrite Hw1, state_of_then by (rewrite Hlen; done). done. }
  split; [done|]. intros s vs w2.
  assert (state_of w1 r = None) as Hr1.
  { rewrite Hw1, state_of_then by (rewrite Hlen; done). done. }
  assert (deferred_of w1 r = [cbA]) as Hd1.
  { rewrite Hw1, deferred_of_then by (rewrite Hlen; done).
    change (state_of wl r) with (state_of w r). rewrite Hrs.
    change (deferred_of wl r) with (deferred_of w r). by rewrite Hrd. }
  assert (timers w1 = []) as Ht1.
  { rewrite Hw1, timers_then by (rewrite Hlen; done).
    change (state_of wl r) with (state_of w r). by rewrite Hrs. }
  assert (length (promises w1) = S (length (promises w))) as Hlen1.
  { by rewrite Hw1, length_then. }
  destruct (set_pending w1 r (Some s) vs) as (E1 & E2 & E3 & E4); [lia|done|].
  set (ws := set w1 r (Some s) vs) in *.
  rewrite Ht1 in E4. cbn [app] in E4. rewrite Hd1 in E3.
  subst w2. rewrite (tick_run_deferred host ws r s [] E4 E1), E3. cbn [foldl].
  set (v0 := with_turn (S (turn ws)) (with_timers [] ws)).
  assert (state_of v0 np = None) as Hnp0.
  { change (state_of v0 np) with (state_of ws np). unfold ws.
    by rewrite state_of_set_ne. }
  assert (np < length (promises v0)) as Hlt0.
  { change (promises v0) with (promises ws). unfold ws. rewrite length_set. lia. }
  assert (length (promises w) ≠ np) as HX by lia.
  rewrite callCallbacks_chosen.
  change (state_of v0 r) with (state_of ws r). rewrite E1.
  change (values_of v0 r) with (values_of ws r). rewrite E2.
  destruct s; cbn [chosen cbA onFulfilled onRejected newPromise apply_fn].
  - destruct (set_pending v0 np (Some true) [arg0 vs]) as (F1 & F2 & _); [done..|].
    rewrite state_of_set_ne, values_of_set_ne by done. done.
  - destruct (set_pending v0 np (Some false) [arg0 vs]) as (F1 & F2 & _); [done..|].
    rewrite state_of_set_ne, values_of_set_ne by done. done.
Qed.


End Adoption.

(** * Notification *)

Section Notification.

Variable host : Host.

(** The turn of a [TNotify] timer. *)
Lemma tick_notify v r e rest :
  timers v = TNotify r e :: rest →
  tick host v =
  run_progress host (S (length (subscribers v r)))
    (with_turn (S (turn v)) (with_timers rest v)) r 0 e.
Proof. intros Ht. by rewrite (tick_cons host v _ _ Ht). Qed.

(** X11.  [notify] only leaves a timer; the subscribers are read when it fires.
    So an event reaches every function subscribed by then, through whichever
    promise of the chain it was subscribed and on whichever promise of the
    chain [notify] was called: also a function subscribed after the call of
    [notify], in the same turn. *)
Theorem notification_reaches_a_later_subscriber w n p m q r f e :
  climbs w n p r → n ≤ length (promises w) →
  climbs w m q r → m ≤ length (promises w) →
  timers w = [] →
  Forall (λ h, returns h [e]) (subscribers w r ++ [f]) →
  let w1 := progress (notify w p e) q f in
  log (tick host w1) =
  log w ++ flat_map (λ h, call_of (S (turn w)) h [e]) (subscribers w r ++ [f]).
Proof.
  intros Hp Hn Hq Hm Ht Hret w1.
  assert (r < length (promises w)) as Hr by (by eapply climbs_valid).
  assert (w1 = update_promise r (push_progress f) (defer (TNotify r e) w)) as Hw1.
  { subst w1. rewrite (notify_climbs w n p r) by done.
    apply (progress_climbs _ m q r); [|done].
    eapply persists_climbs; [|exact Hq]. by apply persists_frame. }
  assert (timers w1 = [TNotify r e]) as Ht1.
  { rewrite Hw1. cbn [timers update_promise with_promises defer with_timers].
    by rewrite Ht. }
  assert (subscribers w1 r = subscribers w r ++ [f]) as Hsub.
  { rewrite Hw1. by rewrite subscribers_push_progress. }
  rewrite (tick_notify w1 r e [] Ht1).
  set (v0 := with_turn (S (turn w1)) (with_timers [] w1)).
  assert (subscribers v0 r = subscribers w r ++ [f]) as Hsub0 by exact Hsub.
  rewrite (run_progress_users host _ v0 r 0 e);
    rewrite ?drop_0, ?Hsub0, ?Hsub; [|done|lia].
  cbn [log with_log].
  assert (log v0 = log w) as -> by (by subst v0; rewrite Hw1).
  assert (turn v0 = S (turn w)) as -> by (by subst v0; rewrite Hw1).
  done.
Qed.

(** The loop over the subscribers has no [try]: the first subscriber that
    throws ends it. *)
Lemma run_progress_throw name body x post e p pre :
  ∀ fuel v i,
  drop i (subscribers v p) = pre ++ FnUser name body :: post →
  Forall (λ h, returns h [e]) pre →
  body [e] = Throw x →
  length pre < fuel →
  run_progress host fuel v p i e =
  with_log
    (log v ++ flat_map (λ h, call_of (turn v) h [e]) pre ++
     [{| call_turn := turn v; call_fn := name; call_args := [e] |}]) v.
Proof.
  induction pre as [|h pre IH]; intros fuel v i Hdrop Hret Hthrow Hfuel.
  - destruct fuel as [|fuel]; [cbn in Hfuel; lia|].
    cbn [run_progress flat_map app]. unfold subscribers in Hdrop.
    destruct (progress_fns_of v p) as [fns|]; cbn [from_option Datatypes.id] in Hdrop;
      [|by rewrite drop_nil in Hdrop].
    assert (fns !! i = Some (FnUser name body)) as Hi.
    { rewrite <- (Nat.add_0_r i), <- lookup_drop, Hdrop. done. }
    rewrite Hi. cbn [apply_fn]. by rewrite Hthrow.
  - destruct fuel as [|fuel]; [cbn in Hfuel; lia|].
    apply Forall_cons in Hret as [Hh Hret].
    cbn [run_progress]. unfold subscribers in Hdrop.
    destruct (progress_fns_of v p) as [fns|] eqn:Hfns;
      cbn [from_option Datatypes.id] in Hdrop; [|by rewrite drop_nil in Hdrop].
    assert (fns !! i = Some h) as Hi.
    { rewrite <- (Nat.add_0_r i), <- lookup_drop, Hdrop. done. }
    rewrite Hi. rewrite (drop_S _ _ _ Hi) in Hdrop. injection Hdrop as Hdrop.
    destruct h as [| | | | | | |hname hbody]; try done.
    destruct Hh as [r Hr]. cbn [apply_fn]. rewrite Hr.
    set (v1 := with_log _ v).
    rewrite (IH fuel v1 (S i)); [| |done|done|cbn in Hfuel; lia].
    + cbn [flat_map call_of]. unfold v1. cbn [log turn with_log].
      rewrite <- !app_assoc. by destruct v.
    + unfold subscribers. change (progress_fns_of v1 p) with (progress_fns_of v p).
      by rewrite Hfns.
Qed.

(** X12.  A subscriber that throws is the last one called for the event: those
    subscribed after it are not called, and nothing else happens; no promise
    changes. *)
Theorem throwing_subscriber_ends_the_notification v r e rest pre name body x post :
  timers v = TNotify r e :: rest →
  subscribers v r = pre ++ FnUser name body :: post →
  Forall (λ h, returns h [e]) pre →
  body [e] = Throw x →
  log (tick host v) =
    log v ++ flat_map (λ h, call_of (S (turn v)) h [e]) pre ++
    [{| call_turn := S (turn v); call_fn := name; call_args := [e] |}]
  ∧ promises (tick host v) = promises v
  ∧ timers (tick host v) = rest.
Proof.
  intros Ht Hsub Hret Hthrow.
  rewrite (tick_notify v r e rest Ht).
  rewrite (run_progress_throw name body x post e r pre); [done| |done|done|].
  - rewrite drop_0. exact Hsub.
  - rewrite Hsub, length_app. cbn [length]. lia.
Qed.

End Notification.

(** * The queue of tickets *)

Section Queue.

Variable host : Host.

Lemma queue_save w f : dispatch_queue (save w f) = dispatch_queue w.
Proof. unfold save. by destruct (files w !! f). Qed.

Lemma queue_expired w f inv :
  dispatch_queue (fst (expired host w f inv)) = dispatch_queue w.
Proof. unfold expired. cbn [fst]. destruct inv; [|done]. by rewrite queue_save. Qed.

Lemma queue_write w f data :
  dispatch_queue (fst (write host w f data)) = dispatch_queue w.
Proof.
  unfold write. destruct (files w !! f); [|done]. cbn [fst].
  by destruct (disk_writable w).
Qed.

Lemma queue_apply_fn w fn args :
  dispatch_queue w = [] → dispatch_queue (fst (apply_fn host w fn args)) = [].
Proof.
  intros Hq.
  destruct fn as [u|prop|u file|file|np|np|np|name body]; cbn [apply_fn fst]; try done.
  - pose proof (queue_write w file (arg0 args)) as Hw.
    destruct (write host w file (arg0 args)) as [w1 ok]. cbn [fst] in Hw.
    destruct ok; cbn [fst]; [|congruence].
    rewrite queue_save. cbn [dispatch_queue updateLastUsedAt update_file with_files].
    congruence.
  - rewrite dispatchNextTask_empty; by destruct (files w !! file).
  - by rewrite (promise_only_dispatch_queue _ _ (promise_only_set w np _ _)).
  - by rewrite (promise_only_dispatch_queue _ _ (promise_only_set w np _ _)).
  - unfold notify. by rewrite (promise_only_dispatch_queue _ _ (promise_only_notify_at _ w np _)).
Qed.

Lemma queue_complete w1 np out :
  dispatch_queue (complete w1 np out) = dispatch_queue w1.
Proof.
  destruct out as [v|e]; cbn [complete].
  - destruct v;
      try apply (promise_only_dispatch_queue _ _ (promise_only_set w1 np _ _)).
    apply (promise_only_dispatch_queue _ _ (promise_only_then w1 _ _ _ _)).
  - apply (promise_only_dispatch_queue _ _ (promise_only_set w1 np _ _)).
Qed.

Lemma queue_callCallbacks w p cb :
  dispatch_queue w = [] → dispatch_queue (callCallbacks host w p cb) = [].
Proof.
  intros Hq. destruct (chosen (state_of w p) cb) as [fn|] eqn:Hch.
  - rewrite (callCallbacks_complete host w p cb fn Hch), queue_complete.
    by apply queue_apply_fn.
  - rewrite callCallbacks_chosen, Hch.
    by rewrite (promise_only_dispatch_queue _ _ (promise_only_set w _ _ _)).
Qed.

Lemma queue_run_deferred fuel :
  ∀ w p i, dispatch_queue w = [] →
  dispatch_queue (run_deferred host fuel w p i) = [].
Proof.
  induction fuel as [|fuel IH]; intros w p i Hq; cbn [run_deferred]; [done|].
  destruct (deferred_of w p !! i); [|done].
  apply IH. by apply queue_callCallbacks.
Qed.

Lemma queue_run_progress fuel :
  ∀ w p i e, dispatch_queue w = [] →
  dispatch_queue (run_progress host fuel w p i e) = [].
Proof.
  induction fuel as [|fuel IH]; intros w p i e Hq; cbn [run_progress]; [done|].
  destruct (progress_fns_of w p) as [fns|]; [|done].
  destruct (fns !! i) as [fn|]; [|done].
  pose proof (queue_apply_fn w fn [e] Hq) as H1.
  destruct (apply_fn host w fn [e]) as [w1 out]. cbn [fst] in H1.
  destruct out; [by apply IH|done].
Qed.

Lemma queue_tick w : dispatch_queue w = [] → dispatch_queue (tick host w) = [].
Proof.
  intros Hq. unfold tick. destruct (timers w) as [|t rest]; [done|].
  destruct t as [p|p cb|p e]; cbn [run_task].
  - by apply queue_run_deferred.
  - by apply queue_callCallbacks.
  - by apply queue_run_progress.
Qed.

Lemma queue_attachCallbacks args w p :
  dispatch_queue (fst (attachCallbacks args w p)) = dispatch_queue w.
Proof. apply promise_only_dispatch_queue, promise_only_attachCallbacks. Qed.

Lemma queue_download w args :
  (1 < MAX_ASYNC_TASKS host)%Z →
  dispatch_queue w = [] → dispatch_queue (fst (download host w args)) = [].
Proof.
  intros Hmax Hq. set (k := idFromUrl host (url args)).
  destruct (pending_tasks w !! k) as [inflight|] eqn:Hk.
  { by rewrite (download_inflight host w args inflight Hk), queue_attachCallbacks. }
  destruct (match files (fst (File_new k w)) !! length (files w) with
            | Some this =>
                is_cached this
                && negb (snd (expired host (fst (File_new k w)) (length (files w)) false))
            | None => false
            end) eqn:Htest.
  { apply (fresh_test host) in Htest.
    rewrite (download_cached host w args Hk Htest), queue_attachCallbacks.
    unfold cache_hit_world, File_new, pinkySwear.
    rewrite (promise_only_dispatch_queue _ _ (promise_only_set _ _ _ _)).
    cbn [dispatch_queue with_promises]. by rewrite queue_save. }
  assert (¬ cached_and_fresh host w k) as Hstale.
  { intros Hfresh. apply (fresh_test host) in Hfresh. congruence. }
  destruct (online w) eqn:Hon.
  - by destruct (download_dispatched host w args (conj Hk (conj Hstale Hon)) Hq Hmax)
      as (_ & _ & _ & ? & _).
  - rewrite (download_offline host w args Hk Hstale Hon), queue_attachCallbacks.
    unfold offline_world, File_new, pinkySwear.
    by rewrite (promise_only_dispatch_queue _ _ (promise_only_set _ _ _ _)).
Qed.

Lemma queue_pruneStaleCache w force :
  dispatch_queue (pruneStaleCache host w force) = dispatch_queue w.
Proof.
  unfold pruneStaleCache.
  generalize (map fst (map_to_list (metadata w))). intros l. revert w.
  induction l as [|i l IH]; intros w; cbn [foldl]; [done|].
  rewrite IH. unfold File_new. destruct (force || _); [|done].
  unfold expunge. by destruct (files _ !! _).
Qed.

Lemma queue_step w w' :
  (1 < MAX_ASYNC_TASKS host)%Z →
  step host w w' → dispatch_queue w = [] → dispatch_queue w' = [].
Proof.
  intros Hmax Hstep Hq. destruct Hstep; try done.
  - by apply queue_download.
  - by rewrite (promise_only_dispatch_queue _ _ (promise_only_then w _ _ _ _)).
  - unfold progress. by rewrite (promise_only_dispatch_queue _ _ (promise_only_progress_at _ w _ _)).
  - by rewrite queue_expired.
  - by rewrite queue_pruneStaleCache.
  - by apply queue_tick.
  - unfold http_onload. destruct (http w !! c) as [hc|]; [|done].
    destruct (hc_done hc); [done|]. unfold resolve, reject.
    by rewrite (promise_only_dispatch_queue _ _ (promise_only_set _ _ _ _)).
  - unfold http_onerror. destruct (http w !! c) as [hc|]; [|done].
    destruct (hc_done hc); [done|]. unfold resolve, reject.
    by rewrite (promise_only_dispatch_queue _ _ (promise_only_set _ _ _ _)).
  - unfold http_ondatastream. destruct (http w !! c) as [hc|]; [|done].
    destruct (hc_done hc); [done|].
    unfold notify. by rewrite (promise_only_dispatch_queue _ _ (promise_only_notify_at _ _ _ _)).
Qed.

(** X13.  With a limit of two or more no ticket ever waits: the [download] that
    queues a ticket finds the queue one long and resolves the ticket before it
    returns, and nothing else adds to the queue.  Whatever the consumers and
    the host do, the queue is empty between any two of their actions. *)
Theorem no_ticket_ever_waits w w' :
  (1 < MAX_ASYNC_TASKS host)%Z →
  dispatch_queue w = [] →
  rtc (step host) w w' →
  dispatch_queue w' = [].
Proof.
  intros Hmax Hq Hsteps. induction Hsteps as [|w1 w2 w3 Hstep _ IH]; [done|].
  apply IH. by apply (queue_step w1 w2).
Qed.

End Queue.

(** * Offline *)

Section Offline.

Variable host : Host.



End Offline.

(** * A fetch from the request to the cleanup *)

Lemma same_store_refl v : same_store v v.
Proof. by repeat split. Qed.





Lemma pending_links_next n j v v' :
  (∀ q, q ≠ n + j → state_of v' q = state_of v q) →
  pending_links n j v → pending_links n (S j) v'.
Proof.
  intros Hs Hp i Hi Hi5. rewrite Hs by lia. apply Hp; lia.
Qed.

Lemma pending_links_same n j v v' :
  (∀ i, j ≤ i → i ≤ 5 → state_of v' (n + i) = state_of v (n + i)) →
  pending_links n j v → pending_links n j v'.
Proof. intros Hs Hp i Hi Hi5. rewrite Hs by lia. by apply Hp. Qed.


Section Pipeline.

Variable host : Host.















End Pipeline.

(** * A fetch from beginning to end *)

Section Fetch.

Variable host : Host.








End Fetch.

(** * The further theorems at the scenarios *)



Lemma finished_file : files finished !! 0 = Some image_file.
Proof. vm_compute. reflexivity. Defined.

(** The record of [image] after its fetch is read back by a new object. *)
Lemma saved_file_is_read_back_at_finished :
  files finished !! 0 = Some image_file
  ∧ File_constructor "md5:http://example.com/image.png" (save finished 0)
    = {| id := "md5:http://example.com/image.png";
         is_cached := on_disk finished "md5:http://example.com/image.png";
         last_used_at := 1000; md5 := Some "md5:PNG";
         pending := false; downloaded := false |}.
Proof.
  split; [exact finished_file|].
  destruct (saved_file_is_read_back finished 0 image_file finished_file) as [H _].
  exact H.
Defined.


(** A disk that takes no file: [write] answers [false], the digest is set
    all the same. *)
Lemma write_reports_existence_on_full_disk :
  files (with_disk_writable false one_file) !! 0
    = Some (File_constructor "md5:a" start)
  ∧ files (fst (write demo_host (with_disk_writable false one_file) 0 (VBlob "PNG")))
      !! 0
    = Some (with_md5 (Some "md5:PNG") (File_constructor "md5:a" start)).
Proof.
  split; [reflexivity|].
  destruct (write_reports_existence demo_host (with_disk_writable false one_file) 0
              (File_constructor "md5:a" start) (VBlob "PNG") eq_refl)
    as (_ & _ & H & _).
  exact H.
Defined.

Lemma much_later_file : files much_later !! 0 = Some image_file.
Proof. vm_compute. reflexivity. Defined.

Lemma invalidation_forces_a_download_much_later :
  files much_later !! 0 = Some image_file
  ∧ (EXPIRATION_TIME demo_host < clock much_later)%Z
  ∧ snd (expired demo_host much_later 0 true) = true
  ∧ ¬ cached_and_fresh demo_host (fst (expired demo_host much_later 0 true))
        "md5:http://example.com/image.png".
Proof.
  assert (EXPIRATION_TIME demo_host < clock much_later)%Z as Hclock
    by (vm_compute; reflexivity).
  assert (idFromUrl demo_host (url (plain image)) = id image_file) as Hid
    by (vm_compute; reflexivity).
  split; [exact much_later_file|]. split; [exact Hclock|].
  destruct (invalidation_forces_a_download demo_host much_later 0 image_file
              (plain image) much_later_file Hclock Hid) as (H1 & H2 & _).
  split; [exact H1|exact H2].
Defined.

(** Three continuations, the second of which throws: all three are
    called, in order. *)
Lemma continuations_run_in_order_at_two_observers :
  log (tick demo_host two_observers) =
  [ {| call_turn := 1; call_fn := "first"; call_args := [VNum 7] |};
    {| call_turn := 1; call_fn := "second"; call_args := [VNum 7] |};
    {| call_turn := 1; call_fn := "third"; call_args := [VNum 7] |} ].
Proof.
  exact (continuations_run_in_order_of_attachment demo_host two_observers 0 true []
           eq_refl eq_refl).
Defined.

(** The handler for the rejection returns: the derived promise is
    fulfilled. *)
Lemma returning_handler_at_about_to_rescue :
  state_of about_to_rescue 0 = Some false
  ∧ state_of (callCallbacks demo_host about_to_rescue 0 rescue_cb) 1 = Some true
  ∧ values_of (callCallbacks demo_host about_to_rescue 0 rescue_cb) 1 = [VUndef].
Proof.
  assert (1 < length (promises about_to_rescue)) as Hlen by (vm_compute; lia).
  split; [reflexivity|].
  destruct (returning_handler_fulfils_derived_promise demo_host about_to_rescue 0
              rescue_cb false "rescue" (λ _, Return VUndef) VUndef
              eq_refl eq_refl eq_refl (λ q, ltac:(discriminate)) Hlen eq_refl)
    as (H1 & H2 & _).
  split; [exact H1|exact H2].
Defined.

(** No handler for the rejection: it is handed on. *)
Lemma unhandled_settlement_at_about_to_pass :
  state_of about_to_pass 0 = Some false
  ∧ state_of (callCallbacks demo_host about_to_pass 0 onlooker_cb) 1 = Some false
  ∧ values_of (callCallbacks demo_host about_to_pass 0 onlooker_cb) 1 = [VStr "no"].
Proof.
  assert (1 < length (promises about_to_pass)) as Hlen by (vm_compute; lia).
  split; [reflexivity|].
  destruct (unhandled_settlement_passes_through demo_host about_to_pass 0
              onlooker_cb false eq_refl eq_refl Hlen eq_refl)
    as (H1 & H2 & _).
  split; [exact H1|exact H2].
Defined.

(** The promise the handler returned is rejected later: so is the derived
    promise. *)
Lemma returned_promise_is_adopted_at_about_to_adopt :
  state_of about_to_adopt 0 = Some true
  ∧ state_of about_to_adopt 1 = None
  ∧ state_of
      (tick demo_host
         (set (callCallbacks demo_host about_to_adopt 0 fetcher_cb) 1
            (Some false) [VStr "late"; VStr "more"])) 2
    = Some false
  ∧ values_of
      (tick demo_host
         (set (callCallbacks demo_host about_to_adopt 0 fetcher_cb) 1
            (Some false) [VStr "late"; VStr "more"])) 2
    = [VStr "late"].
Proof.
  assert (1 < length (promises about_to_adopt)) as H1 by (vm_compute; lia).
  assert (2 < length (promises about_to_adopt)) as H2 by (vm_compute; lia).
  assert (2 ≠ 1) as Hne by lia.
  split; [reflexivity|]. split; [reflexivity|].
  destruct (returned_promise_is_adopted demo_host about_to_adopt 0 fetcher_cb true
              "fetch" (λ _, Return (VPromise 1)) 1
              eq_refl eq_refl eq_refl H1 eq_refl eq_refl eq_refl H2 eq_refl Hne)
    as [_ H].
  exact (H false [VStr "late"; VStr "more"]).
Defined.


(** The subscriber comes after the call of [notify] and is called. *)
Lemma notification_reaches_a_later_subscriber_at_lone_promise :
  timers lone_promise = []
  ∧ log (tick demo_host
           (progress (notify lone_promise 0 (VNum 5)) 0 (observer "late")))
    = [ {| call_turn := 1; call_fn := "late"; call_args := [VNum 5] |} ].
Proof.
  assert (climbs lone_promise 0 0 0) as Hc.
  { apply (climbs_here _ 0 (pending_promise None)); reflexivity. }
  assert (0 ≤ length (promises lone_promise)) as Hn by lia.
  assert (Forall (λ h, returns h [VNum 5])
            (subscribers lone_promise 0 ++ [observer "late"])) as Hret.
  { repeat constructor. by exists VUndef. }
  split; [reflexivity|].
  exact (notification_reaches_a_later_subscriber demo_host lone_promise 0 0 0 0 0
           (observer "late") (VNum 5) Hc Hn Hc Hn eq_refl Hret).
Defined.

(** ["b"] throws: ["c"] is not called. *)
Lemma throwing_subscriber_at_noisy :
  timers noisy = [TNotify 0 (VNum 5)]
  ∧ log (tick demo_host noisy)
    = [ {| call_turn := 1; call_fn := "a"; call_args := [VNum 5] |};
        {| call_turn := 1; call_fn := "b"; call_args := [VNum 5] |} ].
Proof.
  assert (Forall (λ h, returns h [VNum 5]) [observer "a"]) as Hret.
  { repeat constructor. by exists VUndef. }
  split; [reflexivity|].
  destruct (throwing_subscriber_ends_the_notification demo_host noisy 0 (VNum 5) []
              [observer "a"] "b" (λ _, Throw (VStr "oops")) (VStr "oops")
              [observer "c"] eq_refl eq_refl Hret eq_refl) as [H _].
  exact H.
Defined.

Lemma no_ticket_waits_at_settled :
  (1 < MAX_ASYNC_TASKS demo_host)%Z
  ∧ dispatch_queue start = []
  ∧ dispatch_queue settled = [].
Proof.
  assert (1 < MAX_ASYNC_TASKS demo_host)%Z as Hmax by reflexivity.
  assert (rtc (step demo_host) start settled) as Hpath.
  { eapply rtc_l; [apply (step_download demo_host start (plain image))|].
    exact settled_reachable. }
  split; [exact Hmax|]. split; [reflexivity|].
  exact (no_ticket_ever_waits demo_host start settled Hmax eq_refl Hpath).
Defined.




